(** * Hotel Guest Management System: the guest record synchronisation layer

    A shallow embedding of the three React views of the client
    ([GuestList.tsx], [AddGuest.tsx], [GuestDetail.tsx]) and of the pure
    filter/sort they feed, followed by the properties of the design
    document that concern them.

    Conventions of the embedding.
    - A JavaScript string is the list of its UTF-16 code units.
    - An [async] handler is split at its single [await]: the part before it
      ([_begin]) returns the view state and the effects issued up to the
      network call, the part after it ([_resume]) takes the settled promise
      and the clock reading of the [finally] block.
    - Everything a handler does besides updating view state (network calls,
      [console.error], [alert], [window.confirm], [navigate], [setTimeout])
      is recorded, in program order, in a list of [Effect]s.
    - [String.prototype.toLowerCase] and [String.prototype.localeCompare]
      belong to the JavaScript runtime; they are the two operations of the
      class [StringRuntime], and the laws a proof needs of them are stated
      as hypotheses. *)

From Stdlib Require Import List ZArith NArith Bool String Ascii Lia.
From Stdlib Require Import Permutation Sorted.
Import ListNotations.

Local Open Scope string_scope.
Local Open Scope list_scope.
Local Open Scope Z_scope.

(* ================================================================= *)
(** ** JavaScript values used by the views *)

Definition jsstring := list N.

(** A string literal of the source, as code units. *)
Definition lit (s : string) : jsstring :=
  map N_of_ascii (list_ascii_of_string s).

(** WhiteSpace and LineTerminator code units, the ones [trim] removes. *)
Definition isWhiteSpace (c : N) : bool :=
  ((9 <=? c) && (c <=? 13) || (c =? 32) || (c =? 160) || (c =? 5760)
   || (8192 <=? c) && (c <=? 8202) || (c =? 8232) || (c =? 8233)
   || (c =? 8239) || (c =? 8287) || (c =? 12288) || (c =? 65279))%N.

Fixpoint trimStart (s : jsstring) : jsstring :=
  match s with
  | [] => []
  | c :: r => if isWhiteSpace c then trimStart r else s
  end.

Definition trimEnd (s : jsstring) : jsstring := rev (trimStart (rev s)).

Definition trim (s : jsstring) : jsstring := trimEnd (trimStart s).

(** [startsWith t s]: [t] is a prefix of [s]. *)
Fixpoint startsWith (t s : jsstring) : bool :=
  match t, s with
  | [], _ => true
  | _ :: _, [] => false
  | a :: t', b :: s' => (a =? b)%N && startsWith t' s'
  end.

(** [s.includes(t)] *)
Fixpoint includes (s t : jsstring) : bool :=
  startsWith t s ||
  match s with
  | [] => false
  | _ :: r => includes r t
  end.

(** Truthiness of a string: only the empty string is falsy. *)
Definition truthyStr (s : jsstring) : bool :=
  match s with [] => false | _ :: _ => true end.

(** The values a field of a fetched record can take: the guests collection
    holds text, email and date fields, which arrive as JSON strings, or are
    missing ([undefined]) or [null]. *)
Inductive jsval : Type :=
| JUndefined
| JNull
| JString (s : jsstring).

Definition truthy (v : jsval) : bool :=
  match v with
  | JString s => truthyStr s
  | _ => false
  end.

(** [a || b] *)
Definition js_or (a b : jsval) : jsval := if truthy a then a else b.

(** [a || b] on two strings *)
Definition str_or (a b : jsstring) : jsstring := if truthyStr a then a else b.

Definition isString (v : jsval) : bool :=
  match v with JString _ => true | _ => false end.

Definition isSome {A} (o : option A) : bool :=
  match o with Some _ => true | None => false end.

(* ----------------------------------------------------------------- *)
(** *** The runtime's string operations *)

Class StringRuntime : Type := {
  toLowerCase : jsstring -> jsstring;
  localeCompare : jsstring -> jsstring -> Z
}.

(** What ECMAScript asks of a comparator for [sort] to be defined: the sign
    flips when the arguments are swapped, and the order is transitive. *)
Record ConsistentCompare {A : Type} (cmp : A -> A -> Z) : Prop := {
  cmp_flip : forall a b, Z.sgn (cmp b a) = - Z.sgn (cmp a b);
  cmp_trans : forall a b c, cmp a b <= 0 -> cmp b c <= 0 -> cmp a c <= 0
}.

(** An instance that can be evaluated, for ASCII text: lower-casing maps
    [A-Z] to [a-z]; collation compares sort keys, the case-folded text first
    and, on a tie, the text with lower case ordered before upper case (the
    order of the default collation: a < A < b < B). *)
Definition asciiLowerUnit (c : N) : N :=
  if ((65 <=? c) && (c <=? 90))%N then (c + 32)%N else c.

Definition asciiSwapCaseUnit (c : N) : N :=
  if ((65 <=? c) && (c <=? 90))%N then (c + 32)%N
  else if ((97 <=? c) && (c <=? 122))%N then (c - 32)%N else c.

Definition asciiLower (s : jsstring) : jsstring := map asciiLowerUnit s.

Definition collationKey (s : jsstring) : list N :=
  asciiLower s ++ 0%N :: map asciiSwapCaseUnit s.

Definition signOf (c : comparison) : Z :=
  match c with Lt => -1 | Eq => 0 | Gt => 1 end.

Definition asciiLocaleCompare (a b : jsstring) : Z :=
  signOf (list_compare N.compare (collationKey a) (collationKey b)).

Definition AsciiRuntime : StringRuntime :=
  {| toLowerCase := asciiLower; localeCompare := asciiLocaleCompare |}.

(* ================================================================= *)
(** ** Data model *)

(** [types/Guest]: the record the views hold. *)
Record Guest : Type := {
  id : jsstring;
  first_name : jsstring;
  last_name : jsstring;
  email : jsstring;
  phone : jsstring;
  address : jsstring;
  date_of_birth : jsstring
}.

(** A record as the remote store returns it ([RecordModel]): [id] is always
    a string, every other field is whatever the JSON carried. *)
Record RecordModel : Type := {
  r_id : jsstring;
  r_first_name : jsval;
  r_last_name : jsval;
  r_email : jsval;
  r_phone : jsval;
  r_address : jsval;
  r_date_of_birth : jsval
}.

(** The object literal built from a fetched record, field by field, before
    it is given the type [Guest]. *)
Record GuestObj : Type := {
  o_id : jsval;
  o_first_name : jsval;
  o_last_name : jsval;
  o_email : jsval;
  o_phone : jsval;
  o_address : jsval;
  o_date_of_birth : jsval
}.

Definition emptyStr : jsval := JString [].

(** GuestList.tsx 31-39 and GuestDetail.tsx 40-48 (the same literal). *)
Definition mapRecordObj (r : RecordModel) : GuestObj :=
  {| o_id := JString (r_id r);
     o_first_name := js_or (r_first_name r) emptyStr;
     o_last_name := js_or (r_last_name r) emptyStr;
     o_email := js_or (r_email r) emptyStr;
     o_phone := js_or (r_phone r) emptyStr;
     o_address := js_or (r_address r) emptyStr;
     o_date_of_birth := js_or (r_date_of_birth r) emptyStr |}.

Definition objFields (o : GuestObj) : list jsval :=
  [o_id o; o_first_name o; o_last_name o; o_email o; o_phone o; o_address o;
   o_date_of_birth o].

Definition strOf (v : jsval) : jsstring :=
  match v with JString s => s | _ => [] end.

(** The object read at type [Guest]. *)
Definition asGuest (o : GuestObj) : Guest :=
  {| id := strOf (o_id o);
     first_name := strOf (o_first_name o);
     last_name := strOf (o_last_name o);
     email := strOf (o_email o);
     phone := strOf (o_phone o);
     address := strOf (o_address o);
     date_of_birth := strOf (o_date_of_birth o) |}.

Definition objOf (g : Guest) : GuestObj :=
  {| o_id := JString (id g);
     o_first_name := JString (first_name g);
     o_last_name := JString (last_name g);
     o_email := JString (email g);
     o_phone := JString (phone g);
     o_address := JString (address g);
     o_date_of_birth := JString (date_of_birth g) |}.

Definition mapRecord (r : RecordModel) : Guest := asGuest (mapRecordObj r).

(** The field set sent by [create] and [update]. *)
Record Payload : Type := {
  p_first_name : jsstring;
  p_last_name : jsstring;
  p_email : jsstring;
  p_phone : jsstring;
  p_address : jsstring;
  p_date_of_birth : jsval
}.

(** The six inputs of the two forms, by their [name] attribute. *)
Inductive FieldName : Type :=
| F_first_name | F_last_name | F_email | F_phone | F_address | F_date_of_birth.

(* ----------------------------------------------------------------- *)
(** *** Failures of the remote store *)

Record FieldError : Type := { code : string; message : string }.

(** [err.response.data]: the rejected fields, by name. *)
Definition ErrorData := list (string * FieldError).

Fixpoint lookupField (k : string) (d : ErrorData) : option FieldError :=
  match d with
  | [] => None
  | (k', v) :: r => if String.eqb k k' then Some v else lookupField k r
  end.

Record Response : Type := { data : option ErrorData }.

(** The value caught by a handler: [status] and [response] may be missing. *)
Record ClientError : Type := {
  status : option Z;
  response : option Response
}.

Inductive Result (A : Type) : Type :=
| Ok (a : A)
| Err (e : ClientError).
Arguments Ok {A} a.
Arguments Err {A} e.

(** [err.response?.data] *)
Definition responseData (e : ClientError) : option ErrorData :=
  match response e with
  | Some r => data r
  | None => None
  end.

(** [err.response?.data?.email], as a truth value *)
Definition hasEmailError (e : ClientError) : bool :=
  match responseData e with
  | Some d => isSome (lookupField "email" d)
  | None => false
  end.

(* ----------------------------------------------------------------- *)
(** *** Effects *)

Inductive NetCall : Type :=
| GetFullList
| GetOne (i : jsstring)
| Create (fields : Payload)
| Update (i : jsstring) (fields : Payload)
| Delete (i : jsstring).

Inductive TimerAction : Type := ClearLoading | ClearUpdating.

Inductive Effect : Type :=
| Net (c : NetCall)
| ConsoleError (what : string)
| Alert (msg : string)
| Confirm (msg : jsstring) (answer : bool)
| Navigate (path : string) (showLoading : bool)
| SetTimeout (action : TimerAction) (delay : Z).

Definition netCalls (es : list Effect) : list NetCall :=
  flat_map (fun e => match e with Net c => [c] | _ => [] end) es.

Definition navigations (es : list Effect) : list (string * bool) :=
  flat_map (fun e => match e with Navigate p b => [(p, b)] | _ => [] end) es.

(* ----------------------------------------------------------------- *)
(** *** The minimum visible-loading duration *)

Definition MIN_LOADING_MS : Z := 1000.

(** The three lines of every [finally] block that keeps an indicator up:
    [elapsed = Date.now() - start], [remaining = MIN_LOADING_MS - elapsed],
    and the delay handed to [setTimeout]. *)
Definition finallyDelay (start now : Z) : Z :=
  let elapsed := now - start in
  let remaining := MIN_LOADING_MS - elapsed in
  if 0 <? remaining then remaining else 0.

(* ================================================================= *)
(** ** The local view filter (GuestList.tsx 64-82) *)

Inductive SortKey : Type := ByName | ByEmail.

(** [Array.prototype.sort] with a comparator. The language requires the sort
    to be stable; for a consistent comparator the stable sorted arrangement
    of a list is unique (lemma [stable_sort_unique] below), and this
    insertion sort computes it. *)
Section ArraySort.
Context {A : Type} (cmp : A -> A -> Z).

Fixpoint insertSorted (a : A) (l : list A) : list A :=
  match l with
  | [] => [a]
  | b :: r => if cmp a b <=? 0 then a :: l else b :: insertSorted a r
  end.

Fixpoint Array_sort (l : list A) : list A :=
  match l with
  | [] => []
  | a :: r => insertSorted a (Array_sort r)
  end.
End ArraySort.

Section LocalViewFilter.
Context {RT : StringRuntime}.

(** The template literal [`${g.first_name} ${g.last_name}`]. *)
Definition fullName (g : Guest) : jsstring :=
  first_name g ++ [32%N] ++ last_name g.

(** The callback of [filter]. *)
Definition matchesSearch (searchTerm : jsstring) (g : Guest) : bool :=
  let fullName := toLowerCase (fullName g) in
  includes fullName (toLowerCase searchTerm)
  || includes (toLowerCase (email g)) (toLowerCase searchTerm).

(** The callback of [sort]. *)
Definition compareGuests (sortBy : SortKey) (a b : Guest) : Z :=
  match sortBy with
  | ByName =>
      let nameA := toLowerCase (fullName a) in
      let nameB := toLowerCase (fullName b) in
      localeCompare nameA nameB
  | ByEmail =>
      localeCompare (toLowerCase (email a)) (toLowerCase (email b))
  end.

Definition filteredGuests
    (guests : list Guest) (searchTerm : jsstring) (sortBy : SortKey)
    : list Guest :=
  Array_sort (compareGuests sortBy) (filter (matchesSearch searchTerm) guests).

(** The key the comparator looks at, and the key the design document
    names. *)
Definition sortKey (sortBy : SortKey) (g : Guest) : jsstring :=
  match sortBy with
  | ByName => toLowerCase (fullName g)
  | ByEmail => toLowerCase (email g)
  end.
End LocalViewFilter.

Definition rawKey (sortBy : SortKey) (g : Guest) : jsstring :=
  match sortBy with
  | ByName => fullName g
  | ByEmail => email g
  end.

(** [t] occurs in [s]. *)
Definition Substring (t s : jsstring) : Prop :=
  exists pre post, s = pre ++ t ++ post.

(* ================================================================= *)
(** ** GuestList.tsx *)

Module GuestList.

Record State : Type := {
  guests : list Guest;
  loading : bool;
  error : option string;
  searchTerm : jsstring;
  sortBy : SortKey
}.

Definition setLoading (b : bool) (st : State) : State :=
  {| guests := guests st; loading := b; error := error st;
     searchTerm := searchTerm st; sortBy := sortBy st |}.

Definition setGuests (gs : list Guest) (st : State) : State :=
  {| guests := gs; loading := loading st; error := error st;
     searchTerm := searchTerm st; sortBy := sortBy st |}.

Definition setError (e : option string) (st : State) : State :=
  {| guests := guests st; loading := loading st; error := e;
     searchTerm := searchTerm st; sortBy := sortBy st |}.

Definition setSearchTerm (t : jsstring) (st : State) : State :=
  {| guests := guests st; loading := loading st; error := error st;
     searchTerm := t; sortBy := sortBy st |}.

Definition setSortBy (k : SortKey) (st : State) : State :=
  {| guests := guests st; loading := loading st; error := error st;
     searchTerm := searchTerm st; sortBy := k |}.

(** The [useState] initial values; [showLoading] is
    [location.state?.showLoading || false]. *)
Definition init (showLoading : bool) : State :=
  {| guests := []; loading := showLoading; error := None;
     searchTerm := []; sortBy := ByName |}.

(** [fetchGuests] up to the [await]. *)
Definition fetchGuests_begin (st : State) : State * list Effect :=
  (setLoading true st, [Net GetFullList]).

(** [fetchGuests] from the settled [getFullList] on; [start] and [now] are
    the two readings of [Date.now()]. *)
Definition fetchGuests_resume
    (st : State) (resp : Result (list RecordModel)) (start now : Z)
    : State * list Effect :=
  let '(st1, log) :=
    match resp with
    | Ok records =>
        (setError None (setGuests (map mapRecord records) st), [])
    | Err _ =>
        (setError (Some "Failed to load guests. Check console for details.") st,
         [ConsoleError "PocketBase fetch error:"])
    end in
  (st1, log ++ [SetTimeout ClearLoading (finallyDelay start now)]).

Definition fire (a : TimerAction) (st : State) : State :=
  match a with
  | ClearLoading => setLoading false st
  | ClearUpdating => st
  end.

Definition handleSearchChange (value : jsstring) (st : State) : State :=
  setSearchTerm value st.

Definition clearSearch (st : State) : State := setSearchTerm [] st.

Definition handleSortChange (value : SortKey) (st : State) : State :=
  setSortBy value st.

(** The memoised list the table renders. *)
Definition visibleGuests {RT : StringRuntime} (st : State) : list Guest :=
  filteredGuests (guests st) (searchTerm st) (sortBy st).

End GuestList.

(* ================================================================= *)
(** ** AddGuest.tsx *)

Module AddGuest.

(** [guestData]: the draft the form edits. *)
Record GuestData : Type := {
  first_name : jsstring;
  last_name : jsstring;
  email : jsstring;
  phone : jsstring;
  address : jsstring;
  date_of_birth : jsstring
}.

Record State : Type := {
  error : option string;
  loading : bool;
  guestData : GuestData
}.

Definition init : State :=
  {| error := None; loading := false;
     guestData := {| first_name := []; last_name := []; email := [];
                     phone := []; address := []; date_of_birth := [] |} |}.

Definition setError (e : option string) (st : State) : State :=
  {| error := e; loading := loading st; guestData := guestData st |}.

Definition setLoading (b : bool) (st : State) : State :=
  {| error := error st; loading := b; guestData := guestData st |}.

Definition setGuestData (d : GuestData) (st : State) : State :=
  {| error := error st; loading := loading st; guestData := d |}.

(** [{ ...guestData, [name]: value }] *)
Definition setField (name : FieldName) (value : jsstring) (d : GuestData)
    : GuestData :=
  match name with
  | F_first_name =>
      {| first_name := value; last_name := last_name d; email := email d;
         phone := phone d; address := address d;
         date_of_birth := date_of_birth d |}
  | F_last_name =>
      {| first_name := first_name d; last_name := value; email := email d;
         phone := phone d; address := address d;
         date_of_birth := date_of_birth d |}
  | F_email =>
      {| first_name := first_name d; last_name := last_name d; email := value;
         phone := phone d; address := address d;
         date_of_birth := date_of_birth d |}
  | F_phone =>
      {| first_name := first_name d; last_name := last_name d;
         email := email d; phone := value; address := address d;
         date_of_birth := date_of_birth d |}
  | F_address =>
      {| first_name := first_name d; last_name := last_name d;
         email := email d; phone := phone d; address := value;
         date_of_birth := date_of_birth d |}
  | F_date_of_birth =>
      {| first_name := first_name d; last_name := last_name d;
         email := email d; phone := phone d; address := address d;
         date_of_birth := value |}
  end.

Definition handleChange (name : FieldName) (value : jsstring) (st : State)
    : State :=
  setGuestData (setField name value (guestData st)) st.

(** The condition of the validation [if]. *)
Definition requiredMissing (d : GuestData) : bool :=
  negb (truthyStr (trim (first_name d)))
  || negb (truthyStr (trim (last_name d)))
  || negb (truthyStr (trim (email d))).

(** The argument of [create]. *)
Definition payload (d : GuestData) : Payload :=
  {| p_first_name := trim (first_name d);
     p_last_name := trim (last_name d);
     p_email := trim (email d);
     p_phone := trim (phone d);
     p_address := trim (address d);
     p_date_of_birth := js_or (JString (date_of_birth d)) JNull |}.

Definition msgRequired : string :=
  "First name, last name, and email are required.".
Definition msgEmail : string := "Email is already in use or invalid.".
Definition msgInput : string :=
  "Failed to add guest. Please check your input and try again.".
Definition msgConnection : string :=
  "Failed to add guest. Please check your connection and try again.".

(** The message chosen in the [catch] block. *)
Definition createError (err : ClientError) : string :=
  match responseData err with
  | Some errorData =>
      if isSome (lookupField "email" errorData) then msgEmail else msgInput
  | None => msgConnection
  end.

(** [handleSubmit] up to the [await]. *)
Definition handleSubmit_begin (st : State) : State * list Effect :=
  let st1 := setError None (setLoading true st) in
  if requiredMissing (guestData st) then
    (setLoading false (setError (Some msgRequired) st1), [])
  else
    (st1, [Net (Create (payload (guestData st)))]).

(** [handleSubmit] from the settled [create] on. *)
Definition handleSubmit_resume (st : State) (resp : Result RecordModel)
    : State * list Effect :=
  match resp with
  | Ok _ =>
      (setLoading false st,
       [Alert "Guest added successfully!"; Navigate "/guests" false])
  | Err err =>
      (setLoading false (setError (Some (createError err)) st),
       [ConsoleError "Failed to create guest:"])
  end.

(** A whole submission: [resp] is consulted only if the call is made. *)
Definition handleSubmit (st : State) (resp : Result RecordModel)
    : State * list Effect :=
  let '(st1, es1) := handleSubmit_begin st in
  match netCalls es1 with
  | [] => (st1, es1)
  | _ :: _ =>
      let '(st2, es2) := handleSubmit_resume st1 resp in (st2, es1 ++ es2)
  end.

Definition handleCancel (answer : bool) : list Effect :=
  Confirm (lit "Are you sure you want to cancel? Any unsaved changes will be lost.")
          answer
  :: (if answer then [Navigate "/guests" false] else []).

(** The view between events: its state and the calls not yet settled.
    The submit button carries [disabled={loading}]. *)
Record View : Type := { st : State; pending : list NetCall }.

Inductive Event : Type :=
| Submit
| Change (name : FieldName) (value : jsstring)
| Settled (resp : Result RecordModel).

Definition step (v : View) (ev : Event) : View :=
  match ev with
  | Submit =>
      if loading (st v) then v
      else
        let '(st1, es) := handleSubmit_begin (st v) in
        {| st := st1; pending := pending v ++ netCalls es |}
  | Change name value =>
      if loading (st v) then v
      else {| st := handleChange name value (st v); pending := pending v |}
  | Settled resp =>
      match pending v with
      | [] => v
      | _ :: rest =>
          {| st := fst (handleSubmit_resume (st v) resp); pending := rest |}
      end
  end.

Definition run (v : View) (evs : list Event) : View := fold_left step evs v.

End AddGuest.

(* ================================================================= *)
(** ** GuestDetail.tsx *)

Module GuestDetail.

Record State : Type := {
  guest : option Guest;
  loading : bool;
  updating : bool;
  error : option string
}.

Definition setGuest (g : option Guest) (st : State) : State :=
  {| guest := g; loading := loading st; updating := updating st;
     error := error st |}.

Definition setLoading (b : bool) (st : State) : State :=
  {| guest := guest st; loading := b; updating := updating st;
     error := error st |}.

Definition setUpdating (b : bool) (st : State) : State :=
  {| guest := guest st; loading := loading st; updating := b;
     error := error st |}.

Definition setError (e : option string) (st : State) : State :=
  {| guest := guest st; loading := loading st; updating := updating st;
     error := e |}.

(** The [useState] initial values; [initialGuest] is
    [location.state?.guest]. *)
Definition init (initialGuest : option Guest) : State :=
  {| guest := initialGuest;
     loading := negb (isSome initialGuest);
     updating := false;
     error := None |}.

Definition msgNoId : string := "No guest ID provided".
Definition msgNotFound : string := "Guest not found".
Definition msgFetchFailed : string := "Failed to load guest details".
Definition msgRequired : string :=
  "First name, last name, and email are required.".
Definition msgEmail : string := "Email is already in use".
Definition msgUpdateFailed : string := "Failed to update guest".
Definition msgDeleteFailed : string :=
  "Failed to delete guest. Please try again.".

(** The body of [useEffect] up to the [await] of [fetchGuest]; [i] is the
    route parameter, which may be missing. *)
Definition effect_begin (i : option jsstring) (st : State)
    : State * list Effect :=
  match guest st with
  | Some _ => (st, [])
  | None =>
      match i with
      | Some s =>
          if truthyStr s then (setLoading true st, [Net (GetOne s)])
          else (setLoading false (setError (Some msgNoId) st), [])
      | None => (setLoading false (setError (Some msgNoId) st), [])
      end
  end.

(** The message chosen in the [catch] block of [fetchGuest]. *)
Definition fetchError (err : ClientError) : string :=
  match status err with
  | Some 404 => msgNotFound
  | _ => msgFetchFailed
  end.

(** [fetchGuest] from the settled [getOne] on. *)
Definition fetchGuest_resume
    (st : State) (resp : Result RecordModel) (start now : Z)
    : State * list Effect :=
  let '(st1, log) :=
    match resp with
    | Ok record => (setError None (setGuest (Some (mapRecord record)) st), [])
    | Err err =>
        (setError (Some (fetchError err)) st,
         [ConsoleError "Failed to fetch guest:"])
    end in
  (st1, log ++ [SetTimeout ClearLoading (finallyDelay start now)]).

(** Mounting the view: initial state, then the effect, then (if a call was
    issued) its continuation. *)
Definition mount
    (i : option jsstring) (initialGuest : option Guest)
    (resp : Result RecordModel) (start now : Z) : State * list Effect :=
  let '(st1, es1) := effect_begin i (init initialGuest) in
  match netCalls es1 with
  | [] => (st1, es1)
  | _ :: _ =>
      let '(st2, es2) := fetchGuest_resume st1 resp start now in
      (st2, es1 ++ es2)
  end.

Definition fire (a : TimerAction) (st : State) : State :=
  match a with
  | ClearLoading => setLoading false st
  | ClearUpdating => setUpdating false st
  end.

(** [{ ...guest, [name]: value }] *)
Definition setField (name : FieldName) (value : jsstring) (g : Guest)
    : Guest :=
  match name with
  | F_first_name =>
      {| id := id g; first_name := value; last_name := last_name g;
         email := email g; phone := phone g; address := address g;
         date_of_birth := date_of_birth g |}
  | F_last_name =>
      {| id := id g; first_name := first_name g; last_name := value;
         email := email g; phone := phone g; address := address g;
         date_of_birth := date_of_birth g |}
  | F_email =>
      {| id := id g; first_name := first_name g; last_name := last_name g;
         email := value; phone := phone g; address := address g;
         date_of_birth := date_of_birth g |}
  | F_phone =>
      {| id := id g; first_name := first_name g; last_name := last_name g;
         email := email g; phone := value; address := address g;
         date_of_birth := date_of_birth g |}
  | F_address =>
      {| id := id g; first_name := first_name g; last_name := last_name g;
         email := email g; phone := phone g; address := value;
         date_of_birth := date_of_birth g |}
  | F_date_of_birth =>
      {| id := id g; first_name := first_name g; last_name := last_name g;
         email := email g; phone := phone g; address := address g;
         date_of_birth := value |}
  end.

Definition handleChange (name : FieldName) (value : jsstring) (st : State)
    : State :=
  match guest st with
  | None => st
  | Some g => setGuest (Some (setField name value g)) st
  end.

(** The condition of the validation [if]. *)
Definition requiredMissing (g : Guest) : bool :=
  negb (truthyStr (trim (first_name g)))
  || negb (truthyStr (trim (last_name g)))
  || negb (truthyStr (trim (email g))).

(** The argument of [update]; on a string [?.] is plain member access. *)
Definition payload (g : Guest) : Payload :=
  {| p_first_name := trim (first_name g);
     p_last_name := trim (last_name g);
     p_email := trim (email g);
     p_phone := str_or (trim (phone g)) [];
     p_address := str_or (trim (address g)) [];
     p_date_of_birth := js_or (JString (date_of_birth g)) JNull |}.

(** The message chosen in the [catch] block of [handleUpdate]. *)
Definition updateError (err : ClientError) : string :=
  if hasEmailError err then msgEmail else msgUpdateFailed.

(** [handleUpdate] up to the [await]. *)
Definition handleUpdate_begin (st : State) : State * list Effect :=
  match guest st with
  | None => (st, [])
  | Some g =>
      if requiredMissing g then (setError (Some msgRequired) st, [])
      else
        (setError None (setUpdating true st), [Net (Update (id g) (payload g))])
  end.

(** [handleUpdate] from the settled [update] on. *)
Definition handleUpdate_resume
    (st : State) (resp : Result RecordModel) (start now : Z)
    : State * list Effect :=
  let '(st1, es) :=
    match resp with
    | Ok _ =>
        (st, [Alert "Guest updated successfully!"; Navigate "/guests" true])
    | Err err =>
        (setError (Some (updateError err)) st,
         [ConsoleError "Failed to update guest:"])
    end in
  (st1, es ++ [SetTimeout ClearUpdating (finallyDelay start now)]).

Definition handleUpdate
    (st : State) (resp : Result RecordModel) (start now : Z)
    : State * list Effect :=
  let '(st1, es1) := handleUpdate_begin st in
  match netCalls es1 with
  | [] => (st1, es1)
  | _ :: _ =>
      let '(st2, es2) := handleUpdate_resume st1 resp start now in
      (st2, es1 ++ es2)
  end.

(** The question put by [window.confirm]. *)
Definition confirmText (g : Guest) : jsstring :=
  lit "Are you sure you want to delete " ++ first_name g ++ [32%N]
  ++ last_name g ++ lit "?".

(** [handleDelete] up to the [await]; [answer] is what [window.confirm]
    returns. *)
Definition handleDelete_begin (st : State) (answer : bool)
    : State * list Effect :=
  match guest st with
  | None => (st, [])
  | Some g =>
      if negb answer then (st, [Confirm (confirmText g) answer])
      else (st, [Confirm (confirmText g) answer; Net (Delete (id g))])
  end.

(** [handleDelete] from the settled [delete] on. *)
Definition handleDelete_resume (st : State) (resp : Result unit)
    : State * list Effect :=
  match resp with
  | Ok _ =>
      (st, [Alert "Guest deleted successfully!"; Navigate "/guests" true])
  | Err _ =>
      (setError (Some msgDeleteFailed) st,
       [ConsoleError "Failed to delete guest:"])
  end.

Definition handleDelete (st : State) (answer : bool) (resp : Result unit)
    : State * list Effect :=
  let '(st1, es1) := handleDelete_begin st answer in
  match netCalls es1 with
  | [] => (st1, es1)
  | _ :: _ =>
      let '(st2, es2) := handleDelete_resume st1 resp in (st2, es1 ++ es2)
  end.

(** What the component renders. *)
Inductive Screen : Type :=
| Indicator (text : string)
| Missing (text : string)
| Form (g : Guest) (banner : option string) (disabled : bool).

Definition render (st : State) : Screen :=
  if loading st || updating st then
    Indicator (if loading st then "Loading guest details..."
               else "Updating guest...")
  else
    match guest st with
    | None =>
        Missing (match error st with Some e => e | None => "Guest not found" end)
    | Some g => Form g (error st) (updating st)
    end.

(** The Update and Delete buttons can be pressed when the form is on
    screen and not [disabled]. *)
Definition buttonsEnabled (st : State) : bool :=
  match render st with
  | Form _ _ disabled => negb disabled
  | _ => false
  end.

(** The view between events: its state, the calls not yet settled, the
    timers not yet fired, and whether [navigate] has left the view. *)
Record View : Type := {
  st : State;
  pending : list NetCall;
  timers : list TimerAction;
  left : bool
}.

Inductive Event : Type :=
| ClickUpdate
| ClickDelete (answer : bool)
| Change (name : FieldName) (value : jsstring)
| UpdateSettled (resp : Result RecordModel) (start now : Z)
| DeleteSettled (resp : Result unit)
| TimerFires (a : TimerAction).

Definition isUpdate (c : NetCall) : bool :=
  match c with Update _ _ => true | _ => false end.

Definition isDelete (c : NetCall) : bool :=
  match c with Delete _ => true | _ => false end.

(** Remove the first element satisfying [p], if any. *)
Fixpoint removeFirst {A} (p : A -> bool) (l : list A) : option (list A) :=
  match l with
  | [] => None
  | a :: r =>
      if p a then Some r
      else match removeFirst p r with
           | Some r' => Some (a :: r')
           | None => None
           end
  end.

Definition timersOf (es : list Effect) : list TimerAction :=
  flat_map (fun e => match e with SetTimeout a _ => [a] | _ => [] end) es.

Definition leaves (es : list Effect) : bool :=
  match navigations es with [] => false | _ :: _ => true end.

Definition isAction (a b : TimerAction) : bool :=
  match a, b with
  | ClearLoading, ClearLoading | ClearUpdating, ClearUpdating => true
  | _, _ => false
  end.

Definition step (v : View) (ev : Event) : View :=
  match ev with
  | ClickUpdate =>
      if left v || negb (buttonsEnabled (st v)) then v
      else
        let '(st1, es) := handleUpdate_begin (st v) in
        {| st := st1; pending := pending v ++ netCalls es;
           timers := timers v; left := left v |}
  | ClickDelete answer =>
      if left v || negb (buttonsEnabled (st v)) then v
      else
        let '(st1, es) := handleDelete_begin (st v) answer in
        {| st := st1; pending := pending v ++ netCalls es;
           timers := timers v; left := left v |}
  | Change name value =>
      if left v || negb (buttonsEnabled (st v)) then v
      else
        {| st := handleChange name value (st v); pending := pending v;
           timers := timers v; left := left v |}
  | UpdateSettled resp start now =>
      match removeFirst isUpdate (pending v) with
      | None => v
      | Some rest =>
          let '(st1, es) := handleUpdate_resume (st v) resp start now in
          {| st := st1; pending := rest; timers := timers v ++ timersOf es;
             left := left v || leaves es |}
      end
  | DeleteSettled resp =>
      match removeFirst isDelete (pending v) with
      | None => v
      | Some rest =>
          let '(st1, es) := handleDelete_resume (st v) resp in
          {| st := st1; pending := rest; timers := timers v ++ timersOf es;
             left := left v || leaves es |}
      end
  | TimerFires a =>
      match removeFirst (isAction a) (timers v) with
      | None => v
      | Some rest =>
          {| st := fire a (st v); pending := pending v; timers := rest;
             left := left v |}
      end
  end.

Definition run (v : View) (evs : list Event) : View := fold_left step evs v.

(** The view showing a held guest, with nothing in flight. *)
Definition showing (g : Guest) : View :=
  {| st := init (Some g); pending := []; timers := []; left := false |}.

End GuestDetail.

(* ----------------------------------------------------------------- *)
(** *** An indicator over time *)

(** The view state at time [t] of a handler that starts at [start] (state
    [during] from then on), reaches its [finally] block at [now] with state
    and effects [after], and whose timers fire when their delay has run
    out. *)
Definition fireDue {S} (fire : TimerAction -> S -> S)
    (now t : Z) (es : list Effect) (s : S) : S :=
  fold_left
    (fun s e =>
       match e with
       | SetTimeout a delay => if now + delay <=? t then fire a s else s
       | _ => s
       end) es s.

Definition stateAt {S} (fire : TimerAction -> S -> S)
    (before during : S) (after : S * list Effect) (start now t : Z) : S :=
  if t <? start then before
  else if t <? now then during
  else fireDue fire now t (snd after) (fst after).

Definition listLoadingAt
    (st : GuestList.State) (resp : Result (list RecordModel))
    (start now t : Z) : bool :=
  let during := fst (GuestList.fetchGuests_begin st) in
  GuestList.loading
    (stateAt GuestList.fire st during
       (GuestList.fetchGuests_resume during resp start now) start now t).


(* ================================================================= *)
(** ** Vocabulary of the properties *)

Definition allWhiteSpace (s : jsstring) : bool := forallb isWhiteSpace s.

(** Neither end of [t] is white space. *)
Definition EdgesClean (t : jsstring) : Prop :=
  (forall c r, t = c :: r -> isWhiteSpace c = false)
  /\ (forall r c, t = r ++ [c] -> isWhiteSpace c = false).

(** [t] is [s] without its surrounding white space. *)
Definition TrimOf (s t : jsstring) : Prop :=
  exists pre post,
    s = pre ++ t ++ post
    /\ allWhiteSpace pre = true /\ allWhiteSpace post = true
    /\ EdgesClean t.

(** A field that can be persisted: trimmed, and with something in it. *)
Definition Persistable (input sent : jsstring) : Prop :=
  TrimOf input sent /\ sent <> [] /\ allWhiteSpace sent = false.

(** [w] is [v || ""]: the string itself, or the empty string when the field
    is missing or null. *)
Definition OrEmpty (v w : jsval) : Prop :=
  (v = JUndefined \/ v = JNull -> w = JString [])
  /\ (forall s, v = JString s -> w = JString s).

(** What [date_of_birth] is sent as. *)
Definition DateSent (input : jsstring) (sent : jsval) : Prop :=
  (input = [] -> sent = JNull) /\ (input <> [] -> sent = JString input).

(** The order a comparator induces, and the records it cannot tell apart. *)
Definition precedes {A} (cmp : A -> A -> Z) (a b : A) : Prop := cmp a b <= 0.

Definition sameRank {A} (cmp : A -> A -> Z) (x y : A) : bool := cmp y x =? 0.

(** [out] is [l] sorted stably: ascending, and records of equal rank in the
    order they had in [l]. *)
Definition StableSortOf {A} (cmp : A -> A -> Z) (l out : list A) : Prop :=
  Permutation l out
  /\ StronglySorted (precedes cmp) out
  /\ forall x, filter (sameRank cmp x) out = filter (sameRank cmp x) l.

Definition byKey {RT : StringRuntime} (key : Guest -> jsstring) (a b : Guest)
    : Z :=
  localeCompare (key a) (key b).

(** The search term occurs, case aside, in the full name or in the email. *)
Definition Matches {RT : StringRuntime} (searchTerm : jsstring) (g : Guest)
    : Prop :=
  Substring (toLowerCase searchTerm) (toLowerCase (fullName g))
  \/ Substring (toLowerCase searchTerm) (toLowerCase (email g)).

(** The failure kinds of the design document that a remote call can end in. *)
Inductive ErrorKind : Type :=
| DuplicateEmail | NotFound | FetchFailed | CreateFailed | UpdateFailed
| DeleteFailed.

(** The kind of a failed [getOne], and of a failed [create]. *)
Definition fetchKind (err : ClientError) : ErrorKind :=
  match status err with
  | Some 404 => NotFound
  | _ => FetchFailed
  end.



(** A payload built from six inputs the way the design document asks: the
    three required fields trimmed and not blank, the two optional ones
    trimmed, the date absent when empty. *)
Definition Transmitted (f l e ph ad dob : jsstring) (p : Payload) : Prop :=
  Persistable f (p_first_name p)
  /\ Persistable l (p_last_name p)
  /\ Persistable e (p_email p)
  /\ TrimOf ph (p_phone p)
  /\ TrimOf ad (p_address p)
  /\ DateSent dob (p_date_of_birth p).

(** The create view never has more than one call in flight, and has
    [loading] set while it has one. *)
Definition CreateSerialised (v : AddGuest.View) : Prop :=
  AddGuest.pending v = []
  \/ exists c, AddGuest.pending v = [c]
               /\ AddGuest.loading (AddGuest.st v) = true.

(** The detail view never has more than one update in flight, counting the
    stretch after it settled during which its timer keeps [updating] up. *)
Definition updatesInFlight (v : GuestDetail.View) : nat :=
  List.length (filter GuestDetail.isUpdate (GuestDetail.pending v))
  + List.length (filter (GuestDetail.isAction ClearUpdating) (GuestDetail.timers v)).

Definition UpdateSerialised (v : GuestDetail.View) : Prop :=
  (GuestDetail.updating (GuestDetail.st v) = false -> updatesInFlight v = 0%nat)
  /\ (updatesInFlight v <= 1)%nat.

(** Records to evaluate the definitions on. *)
Definition mkGuest (i f l e : string) : Guest :=
  {| id := lit i; first_name := lit f; last_name := lit l; email := lit e;
     phone := []; address := []; date_of_birth := [] |}.

Definition jane : Guest := mkGuest "g1" "Jane" "Doe" "jane@x.com".
Definition bobUpper : Guest := mkGuest "g2" "Bob" "Ray" "bob@x.com".
Definition bobLower : Guest := mkGuest "g3" "bob" "Ray" "rob@x.com".

Definition janeRecord : RecordModel :=
  {| r_id := lit "g1"; r_first_name := JString (lit "Jane");
     r_last_name := JString (lit "Doe"); r_email := JString (lit "jane@x.com");
     r_phone := JNull; r_address := JUndefined; r_date_of_birth := JString [] |}.

Definition janeDraft : AddGuest.GuestData :=
  {| AddGuest.first_name := lit " Jane "; AddGuest.last_name := lit "Doe";
     AddGuest.email := lit "jane@x.com"; AddGuest.phone := [];
     AddGuest.address := []; AddGuest.date_of_birth := [] |}.

Definition blankDraft : AddGuest.GuestData :=
  {| AddGuest.first_name := lit "   "; AddGuest.last_name := lit "Doe";
     AddGuest.email := lit "jane@x.com"; AddGuest.phone := [];
     AddGuest.address := []; AddGuest.date_of_birth := [] |}.

Definition drafting (d : AddGuest.GuestData) : AddGuest.State :=
  AddGuest.setGuestData d AddGuest.init.

Definition networkDown : ClientError := {| status := Some 0; response := None |}.

Definition rejectedNoField : ClientError :=
  {| status := Some 400; response := Some {| data := Some [] |} |}.

Definition rejectedEmail : ClientError :=
  {| status := Some 400;
     response :=
       Some {| data :=
                 Some [("email",
                        {| code := "validation_not_unique";
                           message := "The value must be unique." |})] |} |}.

Definition notFound : ClientError :=
  {| status := Some 404; response := Some {| data := Some [] |} |}.

(* ================================================================= *)
(** ** What the views put on screen, and reading a form field *)

(** GuestList.tsx 85-91 and 139-141: the loading text, the error text, or
    the page, whose table is replaced by a notice when no row is left. The
    cells of a row are not modelled; a row is its guest. *)
Inductive ListScreen : Type :=
| ListLoading
| ListError (text : string)
| NoGuestsFound
| GuestTable (rows : list Guest).

(** Truthiness of a message. *)
Definition truthyText (s : string) : bool :=
  match s with EmptyString => false | String _ _ => true end.

Definition listPage (rows : list Guest) : ListScreen :=
  match rows with
  | [] => NoGuestsFound
  | _ :: _ => GuestTable rows
  end.

Definition listRender {RT : StringRuntime} (st : GuestList.State)
    : ListScreen :=
  if GuestList.loading st then ListLoading
  else
    match GuestList.error st with
    | Some e =>
        if truthyText e then ListError e
        else listPage (GuestList.visibleGuests st)
    | None => listPage (GuestList.visibleGuests st)
    end.

(** The list view on screen at time [t] of a mount whose fetch starts at
    [start] and settles at [now]. *)
Definition listScreenAt {RT : StringRuntime}
    (st : GuestList.State) (resp : Result (list RecordModel))
    (start now t : Z) : ListScreen :=
  let during := fst (GuestList.fetchGuests_begin st) in
  listRender
    (stateAt GuestList.fire st during
       (GuestList.fetchGuests_resume during resp start now) start now t).

(** The detail view on screen at time [t], for its fetch and for an
    update. *)
Definition detailScreenAt
    (i : option jsstring) (st : GuestDetail.State) (resp : Result RecordModel)
    (start now t : Z) : GuestDetail.Screen :=
  let during := fst (GuestDetail.effect_begin i st) in
  GuestDetail.render
    (stateAt GuestDetail.fire st during
       (GuestDetail.fetchGuest_resume during resp start now) start now t).




(** The two Back buttons of the detail view: the one under the message
    shown in place of the form, and the one of the form, which carries
    [disabled={updating}]. *)
Definition backClick (st : GuestDetail.State) : list Effect :=
  match GuestDetail.render st with
  | GuestDetail.Indicator _ => []
  | GuestDetail.Missing _ => [Navigate "/guests" false]
  | GuestDetail.Form _ _ disabled =>
      if disabled then [] else [Navigate "/guests" true]
  end.

(** [guestData[name]] and [guest[name]]: what an input shows. *)
Definition draftField (name : FieldName) (d : AddGuest.GuestData) : jsstring :=
  match name with
  | F_first_name => AddGuest.first_name d
  | F_last_name => AddGuest.last_name d
  | F_email => AddGuest.email d
  | F_phone => AddGuest.phone d
  | F_address => AddGuest.address d
  | F_date_of_birth => AddGuest.date_of_birth d
  end.

Definition guestField (name : FieldName) (g : Guest) : jsstring :=
  match name with
  | F_first_name => first_name g
  | F_last_name => last_name g
  | F_email => email g
  | F_phone => phone g
  | F_address => address g
  | F_date_of_birth => date_of_birth g
  end.

(** The draft holding the six editable fields of a guest. *)
Definition draftOf (g : Guest) : AddGuest.GuestData :=
  {| AddGuest.first_name := first_name g; AddGuest.last_name := last_name g;
     AddGuest.email := email g; AddGuest.phone := phone g;
     AddGuest.address := address g;
     AddGuest.date_of_birth := date_of_birth g |}.

(** A call that updates or deletes the record [i], and nothing else. *)
Definition Targets (i : jsstring) (c : NetCall) : Prop :=
  c = Delete i \/ exists p, c = Update i p.

(** Records of equal rank are the same record. *)
Definition RanksDistinct {A} (cmp : A -> A -> Z) (l : list A) : Prop :=
  forall a b, In a l -> In b l -> cmp a b = 0 -> a = b.

(** What is in flight from the create view is the draft on screen. *)
Definition DraftInFlight (v : AddGuest.View) : Prop :=
  AddGuest.pending v = []
  \/ (AddGuest.pending v
      = [Create (AddGuest.payload (AddGuest.guestData (AddGuest.st v)))]
      /\ AddGuest.loading (AddGuest.st v) = true).

(** The detail view opened on [g] still holds a record with the id of [g],
    every call it has in flight is for that id, and an update in flight
    carries the held record as it is on screen, behind the updating text. *)
Definition HeldRecordCalls (g : Guest) (v : GuestDetail.View) : Prop :=
  (exists g', GuestDetail.guest (GuestDetail.st v) = Some g' /\ id g' = id g)
  /\ Forall (Targets (id g)) (GuestDetail.pending v)
  /\ (forall i p,
        In (Update i p) (GuestDetail.pending v) ->
        GuestDetail.updating (GuestDetail.st v) = true
        /\ exists g', GuestDetail.guest (GuestDetail.st v) = Some g'
                      /\ p = GuestDetail.payload g').

(** The create view with nothing in flight. *)
Definition composing (st : AddGuest.State) : AddGuest.View :=
  {| AddGuest.st := st; AddGuest.pending := [] |}.

(* ================================================================= *)
(** * Properties *)

(** ** Strings *)

Lemma trimStart_split (s : jsstring) :
  exists pre, s = pre ++ trimStart s /\ allWhiteSpace pre = true.
Proof.
  induction s as [|c r [pre [E W]]]; simpl.
  - exists []. split; reflexivity.
  - destruct (isWhiteSpace c) eqn:Hc.
    + exists (c :: pre). split.
      * simpl. now rewrite <- E.
      * simpl. now rewrite Hc, W.
    + exists []. split; reflexivity.
Qed.

Lemma trimStart_head (s : jsstring) c r :
  trimStart s = c :: r -> isWhiteSpace c = false.
Proof.
  induction s as [|a s IH]; simpl; [discriminate|].
  destruct (isWhiteSpace a) eqn:Ha; auto.
  intros E. injection E as -> _. exact Ha.
Qed.

Lemma trimStart_nil_iff (s : jsstring) :
  trimStart s = [] <-> allWhiteSpace s = true.
Proof.
  induction s as [|a s IH]; simpl; [tauto|].
  destruct (isWhiteSpace a); simpl; [exact IH|].
  split; discriminate.
Qed.

Lemma allWhiteSpace_rev (s : jsstring) :
  allWhiteSpace (rev s) = allWhiteSpace s.
Proof.
  unfold allWhiteSpace. induction s as [|a s IH]; simpl; [reflexivity|].
  rewrite forallb_app, IH. simpl. rewrite andb_true_r. apply andb_comm.
Qed.

Lemma trimEnd_split (s : jsstring) :
  exists post, s = trimEnd s ++ post /\ allWhiteSpace post = true.
Proof.
  destruct (trimStart_split (rev s)) as [pre [E W]].
  exists (rev pre). split.
  - unfold trimEnd. rewrite <- rev_app_distr, <- E. symmetry. apply rev_involutive.
  - now rewrite allWhiteSpace_rev.
Qed.

Lemma trimEnd_last (s : jsstring) r c :
  trimEnd s = r ++ [c] -> isWhiteSpace c = false.
Proof.
  unfold trimEnd. intros E.
  apply (f_equal (@rev N)) in E. rewrite rev_involutive, rev_app_distr in E.
  simpl in E. eapply trimStart_head. exact E.
Qed.

Lemma trimEnd_nil_iff (s : jsstring) :
  trimEnd s = [] <-> allWhiteSpace s = true.
Proof.
  unfold trimEnd. rewrite <- allWhiteSpace_rev, <- trimStart_nil_iff.
  split; intros E.
  - apply (f_equal (@rev N)) in E. now rewrite rev_involutive in E.
  - now rewrite E.
Qed.

(** Trimming the end keeps a first unit that is not white space. *)
Lemma trimEnd_keeps_head (c : N) (r : jsstring) :
  isWhiteSpace c = false -> exists r', trimEnd (c :: r) = c :: r'.
Proof.
  intros Hc. destruct (trimEnd_split (c :: r)) as [post [E W]].
  destruct (trimEnd (c :: r)) as [|c' r'] eqn:T.
  - simpl in E. subst post. simpl in W. now rewrite Hc in W.
  - simpl in E. injection E as <- _. now exists r'.
Qed.

Lemma trim_nil_iff (s : jsstring) :
  trim s = [] <-> allWhiteSpace s = true.
Proof.
  unfold trim. rewrite trimEnd_nil_iff.
  rewrite <- (trimStart_nil_iff s).
  destruct (trimStart s) as [|c r] eqn:T; [split; reflexivity|].
  split; [|discriminate]. intros W. simpl in W.
  now rewrite (trimStart_head _ _ _ T) in W.
Qed.

Lemma trim_is_TrimOf (s : jsstring) : TrimOf s (trim s).
Proof.
  destruct (trimStart_split s) as [pre [E1 W1]].
  destruct (trimEnd_split (trimStart s)) as [post [E2 W2]].
  exists pre, post. repeat split; auto.
  - unfold trim. now rewrite <- E2.
  - unfold trim. intros c r E.
    destruct (trimStart s) as [|a t] eqn:T.
    + discriminate E.
    + pose proof (trimStart_head _ _ _ T) as Ha.
      destruct (trimEnd_keeps_head a t Ha) as [r' E'].
      rewrite E' in E. injection E as -> _. exact Ha.
  - unfold trim. intros r c E. eapply trimEnd_last. exact E.
Qed.

Lemma trim_not_blank (s : jsstring) :
  trim s <> [] -> allWhiteSpace (trim s) = false.
Proof.
  intros NE. destruct (trim s) as [|c r] eqn:T; [congruence|].
  destruct (trim_is_TrimOf s) as (pre & post & _ & _ & _ & Hd & _).
  rewrite T in Hd. simpl. now rewrite (Hd c r eq_refl).
Qed.

Lemma trim_Persistable (s : jsstring) :
  truthyStr (trim s) = true -> Persistable s (trim s).
Proof.
  intros T. assert (NE : trim s <> []) by (destruct (trim s); [discriminate|congruence]).
  split; [apply trim_is_TrimOf|]. split; [exact NE|]. now apply trim_not_blank.
Qed.

Lemma falsy_iff_nil (s : jsstring) : negb (truthyStr s) = true <-> s = [].
Proof. destruct s; simpl; split; congruence. Qed.

Lemma str_or_nil (s : jsstring) : str_or s [] = s.
Proof. now destruct s. Qed.

Lemma startsWith_iff (t s : jsstring) :
  startsWith t s = true <-> exists post, s = t ++ post.
Proof.
  revert s. induction t as [|a t IH]; intros s; simpl.
  - split; [intros _; now exists s|reflexivity].
  - destruct s as [|b s].
    + split; [discriminate|]. intros [post E]. discriminate E.
    + rewrite andb_true_iff, N.eqb_eq, IH. split.
      * intros [-> [post ->]]. now exists post.
      * intros [post E]. injection E as -> ->. split; [reflexivity|now exists post].
Qed.

Lemma includes_iff (s t : jsstring) :
  includes s t = true <-> Substring t s.
Proof.
  unfold Substring. induction s as [|b s IH].
  - simpl. rewrite orb_false_r, startsWith_iff. split.
    + intros [post E]. now exists [], post.
    + intros (pre & post & E). destruct pre; [now exists post|discriminate E].
  - cbn [includes]. rewrite orb_true_iff, startsWith_iff, IH. split.
    + intros [[post E]|(pre & post & E)].
      * now exists [], post.
      * exists (b :: pre), post. simpl. now rewrite E.
    + intros (pre & post & E). destruct pre as [|a pre].
      * left. now exists post.
      * right. simpl in E. injection E as _ E. now exists pre, post.
Qed.

Lemma includes_empty (s : jsstring) : includes s [] = true.
Proof. destruct s; reflexivity. Qed.

(** ** Sorting with a consistent comparator *)

Section SortFacts.
Context {A : Type} (cmp : A -> A -> Z).
Hypothesis consistent : ConsistentCompare cmp.

Lemma cmp_gt_flip a b : 0 < cmp a b -> cmp b a < 0.
Proof.
  intros H. pose proof (cmp_flip cmp consistent a b) as F.
  destruct (cmp a b), (cmp b a); simpl in F; try lia; discriminate F.
Qed.

Lemma cmp_zero_flip a b : cmp a b = 0 -> cmp b a = 0.
Proof.
  intros H. pose proof (cmp_flip cmp consistent a b) as F.
  rewrite H in F. destruct (cmp b a); simpl in F; try lia; discriminate F.
Qed.

Lemma cmp_le_flip a b : cmp a b <= 0 -> 0 <= cmp b a.
Proof.
  intros H. pose proof (cmp_flip cmp consistent a b) as F.
  destruct (cmp a b), (cmp b a); simpl in F; try lia; discriminate F.
Qed.

Lemma sameRank_join x a b :
  sameRank cmp x a = true -> sameRank cmp x b = true -> cmp a b = 0.
Proof.
  unfold sameRank. rewrite !Z.eqb_eq. intros Ha Hb.
  pose proof (cmp_zero_flip _ _ Ha) as Ha'.
  pose proof (cmp_zero_flip _ _ Hb) as Hb'.
  assert (cmp a b <= 0)
    by (apply (cmp_trans cmp consistent a x b); lia).
  assert (cmp b a <= 0)
    by (apply (cmp_trans cmp consistent b x a); lia).
  pose proof (cmp_le_flip b a). lia.
Qed.

Lemma insertSorted_perm a l : Permutation (a :: l) (insertSorted cmp a l).
Proof.
  induction l as [|b r IH]; simpl; [reflexivity|].
  destruct (cmp a b <=? 0); [reflexivity|].
  rewrite perm_swap. now apply perm_skip.
Qed.

Lemma Array_sort_perm l : Permutation l (Array_sort cmp l).
Proof.
  induction l as [|a r IH]; simpl; [constructor|].
  rewrite <- insertSorted_perm. now apply perm_skip.
Qed.

Lemma insertSorted_sorted a l :
  StronglySorted (precedes cmp) l ->
  StronglySorted (precedes cmp) (insertSorted cmp a l).
Proof.
  induction 1 as [|b r S IH F]; simpl.
  - repeat constructor.
  - destruct (cmp a b <=? 0) eqn:E.
    + apply Z.leb_le in E. constructor; [now constructor|].
      constructor; [exact E|].
      eapply Forall_impl; [|exact F]. intros c Hc.
      exact (cmp_trans cmp consistent a b c E Hc).
    + apply Z.leb_gt in E. constructor; [exact IH|].
      eapply Permutation_Forall; [apply insertSorted_perm|].
      constructor; [|exact F].
      unfold precedes. pose proof (cmp_gt_flip a b E). lia.
Qed.

Lemma Array_sort_sorted l : StronglySorted (precedes cmp) (Array_sort cmp l).
Proof.
  induction l as [|a r IH]; simpl; [constructor|].
  now apply insertSorted_sorted.
Qed.

Lemma insertSorted_filter x a l :
  filter (sameRank cmp x) (insertSorted cmp a l)
  = filter (sameRank cmp x) (a :: l).
Proof.
  induction l as [|b r IH]; [reflexivity|].
  cbn [insertSorted]. destruct (cmp a b <=? 0) eqn:E; [reflexivity|].
  apply Z.leb_gt in E.
  cbn [filter] in *. rewrite IH.
  destruct (sameRank cmp x a) eqn:Ra, (sameRank cmp x b) eqn:Rb; try reflexivity.
  pose proof (sameRank_join x a b Ra Rb). lia.
Qed.

Lemma Array_sort_stable x l :
  filter (sameRank cmp x) (Array_sort cmp l) = filter (sameRank cmp x) l.
Proof.
  induction l as [|a r IH]; [reflexivity|].
  cbn [Array_sort]. rewrite insertSorted_filter. cbn [filter]. now rewrite IH.
Qed.

(** Sorting what is already in order changes nothing. *)
Lemma Array_sort_fixed l :
  StronglySorted (precedes cmp) l -> Array_sort cmp l = l.
Proof.
  induction 1 as [|a r S IH F]; [reflexivity|].
  cbn [Array_sort]. rewrite IH. destruct r as [|b r']; [reflexivity|].
  simpl. inversion F as [|? ? Hab _]; subst.
  unfold precedes in Hab. apply Z.leb_le in Hab. now rewrite Hab.
Qed.

Lemma Array_sort_StableSortOf l : StableSortOf cmp l (Array_sort cmp l).
Proof.
  split; [apply Array_sort_perm|]. split; [apply Array_sort_sorted|].
  intros x. apply Array_sort_stable.
Qed.

(** Two ascending arrangements of the same records that keep records of
    equal rank in the same order are the same list: a stable sort has only
    one possible result. *)
Lemma stable_sort_unique l1 :
  forall l2,
    StronglySorted (precedes cmp) l1 -> StronglySorted (precedes cmp) l2 ->
    Permutation l1 l2 ->
    (forall x, filter (sameRank cmp x) l1 = filter (sameRank cmp x) l2) ->
    l1 = l2.
Proof.
  induction l1 as [|a r1 IH]; intros l2 S1 S2 P Fil.
  - now apply Permutation_nil in P.
  - destruct l2 as [|b r2];
      [apply Permutation_sym, Permutation_nil in P; discriminate P|].
    inversion S1 as [|? ? S1' F1]; subst.
    inversion S2 as [|? ? S2' F2]; subst.
    assert (Eab : cmp a b = 0).
    { assert (Hab : cmp a b <= 0).
      { assert (I : In b (a :: r1))
          by (eapply Permutation_in; [apply Permutation_sym, P|now left]).
        destruct I as [<-|I].
        - pose proof (cmp_flip cmp consistent a a).
          destruct (cmp a a); simpl in *; lia.
        - rewrite Forall_forall in F1. exact (F1 b I). }
      assert (Hba : cmp b a <= 0).
      { assert (I : In a (b :: r2))
          by (eapply Permutation_in; [apply P|now left]).
        destruct I as [<-|I].
        - pose proof (cmp_flip cmp consistent b b).
          destruct (cmp b b); simpl in *; lia.
        - rewrite Forall_forall in F2. exact (F2 a I). }
      pose proof (cmp_le_flip b a Hba). lia. }
    assert (Eaa : cmp a a = 0).
    { pose proof (cmp_flip cmp consistent a a).
      destruct (cmp a a); simpl in *; lia. }
    assert (a = b).
    { pose proof (Fil a) as Fa. cbn [filter] in Fa. unfold sameRank in Fa.
      rewrite Eaa, (cmp_zero_flip _ _ Eab) in Fa. simpl in Fa. congruence. }
    subst b. f_equal. apply IH; auto.
    + eapply Permutation_cons_inv. exact P.
    + intros x. pose proof (Fil x) as Fx. cbn [filter] in Fx.
      destruct (sameRank cmp x a); congruence.
Qed.

Lemma StableSortOf_unique l out :
  StableSortOf cmp l out -> out = Array_sort cmp l.
Proof.
  intros (P & S & F). apply stable_sort_unique; auto.
  - apply Array_sort_sorted.
  - rewrite <- P. apply Array_sort_perm.
  - intros x. now rewrite F, Array_sort_stable.
Qed.
End SortFacts.

Lemma byKey_consistent {A B : Type} (cmp : B -> B -> Z) (key : A -> B) :
  ConsistentCompare cmp -> ConsistentCompare (fun a b => cmp (key a) (key b)).
Proof.
  intros [F T]. split.
  - intros a b. apply F.
  - intros a b c. apply T.
Qed.

Lemma Array_sort_ext {A : Type} (c1 c2 : A -> A -> Z) :
  (forall a b, c1 a b = c2 a b) -> forall l, Array_sort c1 l = Array_sort c2 l.
Proof.
  intros E l. induction l as [|a r IH]; [reflexivity|].
  cbn [Array_sort]. rewrite IH. generalize (Array_sort c2 r). intros m.
  induction m as [|b m IHm]; [reflexivity|].
  cbn [insertSorted]. now rewrite E, IHm.
Qed.

Lemma compareGuests_byKey {RT : StringRuntime} sortBy a b :
  compareGuests sortBy a b = byKey (sortKey sortBy) a b.
Proof. destruct sortBy; reflexivity. Qed.

(** ** The evaluable runtime obeys the comparator laws *)

Lemma N_compare_trans (x y z : N) (c : comparison) :
  (x ?= y)%N = c -> (y ?= z)%N = c -> (x ?= z)%N = c.
Proof.
  destruct c.
  - rewrite !N.compare_eq_iff. congruence.
  - rewrite !N.compare_lt_iff. lia.
  - rewrite !N.compare_gt_iff. lia.
Qed.

Lemma sortKeyCompare_consistent {A : Type} (key : A -> list N) :
  ConsistentCompare
    (fun a b => signOf (list_compare N.compare (key a) (key b))).
Proof.
  split.
  - intros a b.
    rewrite (list_compare_antisym N.compare N.compare_eq_iff (key a) (key b)).
    + destruct (list_compare N.compare (key a) (key b)); reflexivity.
    + intros x y. apply N.compare_antisym.
  - intros a b c Hab Hbc.
    destruct (list_compare N.compare (key a) (key b)) eqn:Eab;
      [|clear Hab|simpl in Hab; lia].
    + apply (list_compare_refl N.compare N.compare_eq_iff) in Eab.
      now rewrite Eab.
    + destruct (list_compare N.compare (key b) (key c)) eqn:Ebc;
        [|clear Hbc|simpl in Hbc; lia].
      * apply (list_compare_refl N.compare N.compare_eq_iff) in Ebc.
        rewrite <- Ebc, Eab. simpl. lia.
      * rewrite (@list_compare_trans N N.compare N.compare_eq_iff
                   (key a) (key b) (key c) Lt N_compare_trans
                   (fun x y => N.compare_antisym x y) Eab Ebc).
        simpl. lia.
Qed.

Lemma asciiLocaleCompare_consistent :
  ConsistentCompare (@localeCompare AsciiRuntime).
Proof. exact (sortKeyCompare_consistent collationKey). Qed.

(* ================================================================= *)
(** ** The minimum visible-loading duration *)

Lemma finallyDelay_fires_at (start now : Z) :
  now + finallyDelay start now = start + Z.max (now - start) MIN_LOADING_MS.
Proof.
  unfold finallyDelay, MIN_LOADING_MS. cbv zeta.
  destruct (0 <? 1000 - (now - start)) eqn:E;
    [apply Z.ltb_lt in E|apply Z.ltb_ge in E]; lia.
Qed.

Lemma finallyDelay_nonneg (start now : Z) : 0 <= finallyDelay start now.
Proof.
  unfold finallyDelay, MIN_LOADING_MS. cbv zeta.
  destruct (0 <? 1000 - (now - start)) eqn:E;
    [apply Z.ltb_lt in E|]; lia.
Qed.

Lemma fireDue_app {S} (fire : TimerAction -> S -> S) now t es1 es2 s :
  fireDue fire now t (es1 ++ es2) s
  = fireDue fire now t es2 (fireDue fire now t es1 s).
Proof. unfold fireDue. apply fold_left_app. Qed.






(** The two cases the design document lists: a call of 10 units keeps the
    indicator for 1000, a call of 2000 units for exactly 2000. *)
Example fast_fetch_shows_for_floor :
  finallyDelay 0 10 = 990
  /\ listLoadingAt (GuestList.init false) (Ok [janeRecord]) 0 10 999 = true
  /\ listLoadingAt (GuestList.init false) (Ok [janeRecord]) 0 10 1000 = false.
Proof. repeat split. Qed.

Example slow_fetch_adds_no_delay :
  finallyDelay 0 2000 = 0
  /\ listLoadingAt (GuestList.init false) (Ok [janeRecord]) 0 2000 1999 = true
  /\ listLoadingAt (GuestList.init false) (Ok [janeRecord]) 0 2000 2000 = false.
Proof. repeat split. Qed.

(* ================================================================= *)
(** ** Fetching one record *)

(** C3. When the detail view is entered with a record passed forward from
    the list, mounting it issues no network call (indeed no effect at all)
    and the view shows that record unchanged; the effect, re-run on any
    later change of the record, stays silent; and a remote get is issued
    only when no record is held, for the id of the route. *)
Theorem held_record_skips_fetch :
  (forall i g resp start now,
      GuestDetail.mount i (Some g) resp start now
      = (GuestDetail.init (Some g), [])
      /\ GuestDetail.guest (GuestDetail.init (Some g)) = Some g
      /\ GuestDetail.render (GuestDetail.init (Some g))
         = GuestDetail.Form g None false)
  /\ (forall i st g,
        GuestDetail.guest st = Some g ->
        GuestDetail.effect_begin i st = (st, []))
  /\ (forall i held resp start now c,
        In c (netCalls (snd (GuestDetail.mount i held resp start now))) ->
        held = None /\ exists s, i = Some s /\ s <> [] /\ c = GetOne s).
Proof.
  repeat split.
  - intros i st g H. unfold GuestDetail.effect_begin. now rewrite H.
  - destruct held; [|reflexivity]. simpl in H. contradiction.
  - destruct held as [g|]; [simpl in H; contradiction|].
    unfold GuestDetail.mount, GuestDetail.effect_begin in H.
    cbn [GuestDetail.init GuestDetail.guest isSome] in H.
    destruct i as [s|]; [|simpl in H; contradiction].
    destruct s as [|u s]; [simpl in H; contradiction|].
    cbn [truthyStr netCalls flat_map app] in H.
    unfold GuestDetail.fetchGuest_resume in H.
    exists (u :: s). split; [reflexivity|]. split; [discriminate|].
    destruct resp; cbn in H; destruct H as [<-|[]]; reflexivity.
Qed.

Lemma held_record_skips_fetch_witness :
  GuestDetail.guest (GuestDetail.init (Some jane)) = Some jane
  /\ GuestDetail.effect_begin (Some (lit "g1")) (GuestDetail.init (Some jane))
     = (GuestDetail.init (Some jane), [])
  /\ In (GetOne (lit "g1"))
       (netCalls (snd (GuestDetail.mount (Some (lit "g1")) None
                         (Ok janeRecord) 0 10)))
  /\ (None : option Guest) = None.
Proof.
  split; [reflexivity|]. split; [|split].
  - exact (proj1 (proj2 held_record_skips_fetch) (Some (lit "g1"))
             (GuestDetail.init (Some jane)) jane eq_refl).
  - left. reflexivity.
  - exact (proj1 (proj2 (proj2 held_record_skips_fetch) (Some (lit "g1")) None
                    (Ok janeRecord) 0 10 (GetOne (lit "g1"))
                    (or_introl eq_refl))).
Defined.

(** Without a held record the get is made, once, for the route's id. *)
Example no_held_record_fetches :
  netCalls (snd (GuestDetail.mount (Some (lit "g1")) None (Ok janeRecord) 0 10))
  = [GetOne (lit "g1")]
  /\ GuestDetail.guest
       (fst (GuestDetail.mount (Some (lit "g1")) None (Ok janeRecord) 0 10))
     = Some (mapRecord janeRecord).
Proof. split; reflexivity. Qed.

(* ================================================================= *)
(** ** Validation before the network *)

Lemma create_requiredMissing_iff (d : AddGuest.GuestData) :
  AddGuest.requiredMissing d = true
  <-> trim (AddGuest.first_name d) = [] \/ trim (AddGuest.last_name d) = []
      \/ trim (AddGuest.email d) = [].
Proof.
  unfold AddGuest.requiredMissing.
  rewrite !orb_true_iff, !falsy_iff_nil. tauto.
Qed.

Lemma update_requiredMissing_iff (g : Guest) :
  GuestDetail.requiredMissing g = true
  <-> trim (first_name g) = [] \/ trim (last_name g) = []
      \/ trim (email g) = [].
Proof.
  unfold GuestDetail.requiredMissing.
  rewrite !orb_true_iff, !falsy_iff_nil. tauto.
Qed.

Lemma not_missing_all_present (a b c : jsstring) :
  ~ (a = [] \/ b = [] \/ c = []) -> a <> [] /\ b <> [] /\ c <> [].
Proof. tauto. Qed.

(** C4. In create and in update alike, when first_name, last_name or email
    is empty after trimming, the handler sets the validation message as the
    view's error and issues no effect at all, so no network call; and
    whenever the handler does reach the network, all three are non-empty
    after trimming. *)
Theorem required_fields_checked_before_network :
  (forall st resp,
      let d := AddGuest.guestData st in
      let out := AddGuest.handleSubmit st resp in
      (trim (AddGuest.first_name d) = [] \/ trim (AddGuest.last_name d) = []
       \/ trim (AddGuest.email d) = [] ->
       AddGuest.error (fst out) = Some AddGuest.msgRequired
       /\ AddGuest.loading (fst out) = false
       /\ snd out = [])
      /\ (netCalls (snd out) <> [] ->
          trim (AddGuest.first_name d) <> [] /\ trim (AddGuest.last_name d) <> []
          /\ trim (AddGuest.email d) <> []))
  /\ (forall st g resp start now,
        GuestDetail.guest st = Some g ->
        let out := GuestDetail.handleUpdate st resp start now in
        (trim (first_name g) = [] \/ trim (last_name g) = []
         \/ trim (email g) = [] ->
         fst out = GuestDetail.setError (Some GuestDetail.msgRequired) st
         /\ snd out = [])
        /\ (netCalls (snd out) <> [] ->
            trim (first_name g) <> [] /\ trim (last_name g) <> []
            /\ trim (email g) <> [])).
Proof.
  split.
  - intros st resp d out. subst d out.
    unfold AddGuest.handleSubmit, AddGuest.handleSubmit_begin.
    destruct (AddGuest.requiredMissing (AddGuest.guestData st)) eqn:M.
    + split; [intros _; repeat split|]. intros H. now elim H.
    + split.
      * intros H. apply create_requiredMissing_iff in H. congruence.
      * intros _. apply not_missing_all_present.
        rewrite <- create_requiredMissing_iff. congruence.
  - intros st g resp start now Hg out. subst out.
    unfold GuestDetail.handleUpdate, GuestDetail.handleUpdate_begin.
    rewrite Hg.
    destruct (GuestDetail.requiredMissing g) eqn:M.
    + split; [intros _; repeat split|]. intros H. now elim H.
    + split.
      * intros H. apply update_requiredMissing_iff in H. congruence.
      * intros _. apply not_missing_all_present.
        rewrite <- update_requiredMissing_iff. congruence.
Qed.

Lemma required_fields_checked_before_network_witness :
  trim (AddGuest.first_name blankDraft) = []
  /\ snd (AddGuest.handleSubmit (drafting blankDraft) (Ok janeRecord)) = []
  /\ netCalls (snd (AddGuest.handleSubmit (drafting janeDraft) (Ok janeRecord)))
     <> []
  /\ trim (AddGuest.first_name janeDraft) <> []
  /\ GuestDetail.guest (GuestDetail.init (Some jane)) = Some jane
  /\ trim (first_name jane) <> [].
Proof.
  split; [reflexivity|]. split; [|split; [discriminate|split; [|split]]].
  - exact (proj2 (proj2 (proj1
             (proj1 required_fields_checked_before_network
                (drafting blankDraft) (Ok janeRecord))
             (or_introl eq_refl)))).
  - exact (proj1 (proj2
             (proj1 required_fields_checked_before_network
                (drafting janeDraft) (Ok janeRecord))
             ltac:(discriminate))).
  - reflexivity.
  - exact (proj1 (proj2
             (proj2 required_fields_checked_before_network
                (GuestDetail.init (Some jane)) jane (Ok janeRecord) 0 10
                eq_refl)
             ltac:(discriminate))).
Defined.

(** A first name of white space only is rejected without a call; a valid
    draft reaches the store. *)
Example blank_first_name_rejected :
  AddGuest.handleSubmit (drafting blankDraft) (Ok janeRecord)
  = (AddGuest.setError (Some AddGuest.msgRequired) (drafting blankDraft), []).
Proof. reflexivity. Qed.

Example valid_draft_is_sent :
  netCalls (snd (AddGuest.handleSubmit (drafting janeDraft) (Ok janeRecord)))
  = [Create {| p_first_name := lit "Jane"; p_last_name := lit "Doe";
               p_email := lit "jane@x.com"; p_phone := []; p_address := [];
               p_date_of_birth := JNull |}].
Proof. reflexivity. Qed.

(* ================================================================= *)
(** ** Deleting *)



Example declined_delete_does_nothing :
  GuestDetail.handleDelete (GuestDetail.init (Some jane)) false (Ok tt)
  = (GuestDetail.init (Some jane),
     [Confirm (lit "Are you sure you want to delete Jane Doe?") false]).
Proof. reflexivity. Qed.

(* ================================================================= *)
(** ** What is transmitted *)

Lemma DateSent_or_null (dob : jsstring) :
  DateSent dob (js_or (JString dob) JNull).
Proof.
  split.
  - now intros ->.
  - intros NE. destruct dob; [congruence|reflexivity].
Qed.

Lemma truthy_of_present (s : jsstring) :
  negb (truthyStr (trim s)) = false -> truthyStr (trim s) = true.
Proof. now destruct (truthyStr (trim s)). Qed.

(** C8. Whenever create or update reaches the network, the payload carries
    first_name, last_name and email trimmed and not blank (non-empty, not
    white space only), phone and address trimmed, and date_of_birth as
    [null] when the input is empty (and as the input itself otherwise);
    update sends it under the id of the held record. Trimmed means: the
    input with a run of white space removed at each end, and no white space
    left at either end. *)
Theorem transmitted_fields_trimmed :
  (forall st resp p,
      In (Create p) (netCalls (snd (AddGuest.handleSubmit st resp))) ->
      let d := AddGuest.guestData st in
      Transmitted (AddGuest.first_name d) (AddGuest.last_name d)
        (AddGuest.email d) (AddGuest.phone d) (AddGuest.address d)
        (AddGuest.date_of_birth d) p)
  /\ (forall st resp start now i p,
        In (Update i p)
           (netCalls (snd (GuestDetail.handleUpdate st resp start now))) ->
        exists g,
          GuestDetail.guest st = Some g /\ i = id g
          /\ Transmitted (first_name g) (last_name g) (email g) (phone g)
               (address g) (date_of_birth g) p).
Proof.
  split.
  - intros st resp p H d. subst d.
    unfold AddGuest.handleSubmit, AddGuest.handleSubmit_begin in H.
    destruct (AddGuest.requiredMissing (AddGuest.guestData st)) eqn:M;
      [simpl in H; contradiction|].
    unfold AddGuest.requiredMissing in M.
    apply orb_false_elim in M as [M Me]. apply orb_false_elim in M as [Mf Ml].
    assert (E : p = AddGuest.payload (AddGuest.guestData st)).
    { destruct resp; cbn in H; destruct H as [E|[]]; congruence. }
    subst p. unfold Transmitted, AddGuest.payload; cbn.
    repeat split;
      try (apply trim_Persistable; now apply truthy_of_present);
      try apply trim_is_TrimOf; apply DateSent_or_null.
  - intros st resp start now i p H.
    unfold GuestDetail.handleUpdate, GuestDetail.handleUpdate_begin in H.
    destruct (GuestDetail.guest st) as [g|] eqn:G; [|simpl in H; contradiction].
    destruct (GuestDetail.requiredMissing g) eqn:M; [simpl in H; contradiction|].
    unfold GuestDetail.requiredMissing in M.
    apply orb_false_elim in M as [M Me]. apply orb_false_elim in M as [Mf Ml].
    assert (E : Update i p = Update (id g) (GuestDetail.payload g)).
    { unfold GuestDetail.handleUpdate_resume in H.
      destruct resp; cbn in H; destruct H as [E|[]]; congruence. }
    injection E as -> ->. exists g. split; [reflexivity|]. split; [reflexivity|].
    unfold Transmitted, GuestDetail.payload; cbn. rewrite !str_or_nil.
    repeat split;
      try (apply trim_Persistable; now apply truthy_of_present);
      try apply trim_is_TrimOf; apply DateSent_or_null.
Qed.

Lemma transmitted_fields_trimmed_witness :
  (exists p,
      In (Create p)
         (netCalls (snd (AddGuest.handleSubmit (drafting janeDraft)
                           (Ok janeRecord))))
      /\ p_first_name p = lit "Jane"
      /\ Persistable (lit " Jane ") (p_first_name p)
      /\ p_date_of_birth p = JNull)
  /\ (exists i p g,
        In (Update i p)
           (netCalls (snd (GuestDetail.handleUpdate
                             (GuestDetail.init (Some jane)) (Ok janeRecord)
                             0 10)))
        /\ GuestDetail.guest (GuestDetail.init (Some jane)) = Some g
        /\ i = id g).
Proof.
  split.
  - eexists. split; [left; reflexivity|]. split; [reflexivity|].
    pose proof (proj1 transmitted_fields_trimmed (drafting janeDraft)
                  (Ok janeRecord) _ (or_introl eq_refl)) as T.
    split; [exact (proj1 T)|reflexivity].
  - destruct (proj2 transmitted_fields_trimmed (GuestDetail.init (Some jane))
                (Ok janeRecord) 0 10 _ _ (or_introl eq_refl))
      as (g & Hg & Hi & _).
    eexists _, _, g. split; [left; reflexivity|]. split; [exact Hg|exact Hi].
Defined.

(** An update of a held record whose phone has stray blanks. *)
Example update_payload_trimmed :
  netCalls
    (snd (GuestDetail.handleUpdate
            (GuestDetail.handleChange F_phone (lit "  555 ")
               (GuestDetail.init (Some jane)))
            (Ok janeRecord) 0 10))
  = [Update (lit "g1")
       {| p_first_name := lit "Jane"; p_last_name := lit "Doe";
          p_email := lit "jane@x.com"; p_phone := lit "555"; p_address := [];
          p_date_of_birth := JNull |}].
Proof. reflexivity. Qed.

(* ================================================================= *)
(** ** Mapping a fetched record *)

Lemma js_or_empty_OrEmpty (v : jsval) : OrEmpty v (js_or v emptyStr).
Proof.
  split.
  - intros [-> | ->]; reflexivity.
  - intros s ->. destruct s; reflexivity.
Qed.

Lemma js_or_empty_isString (v : jsval) : isString (js_or v emptyStr) = true.
Proof. destruct v as [| |[|c s]]; reflexivity. Qed.

Lemma js_or_empty_strOf (v : jsval) :
  JString (strOf (js_or v emptyStr)) = js_or v emptyStr.
Proof. destruct v as [| |[|c s]]; reflexivity. Qed.

(** C10. The object built from a fetched record has all seven fields as
    strings: [id] is the record's id, and each of the six other fields is the
    record's string, or the empty string when the record's field is missing
    or null (date_of_birth included); read at type [Guest] it loses nothing;
    and it is that mapping, of every record, that the list view and the
    detail view store after a successful fetch. *)
Theorem fetched_fields_are_strings (r : RecordModel) :
  Forall (fun v => isString v = true) (objFields (mapRecordObj r))
  /\ o_id (mapRecordObj r) = JString (r_id r)
  /\ OrEmpty (r_first_name r) (o_first_name (mapRecordObj r))
  /\ OrEmpty (r_last_name r) (o_last_name (mapRecordObj r))
  /\ OrEmpty (r_email r) (o_email (mapRecordObj r))
  /\ OrEmpty (r_phone r) (o_phone (mapRecordObj r))
  /\ OrEmpty (r_address r) (o_address (mapRecordObj r))
  /\ OrEmpty (r_date_of_birth r) (o_date_of_birth (mapRecordObj r))
  /\ objOf (mapRecord r) = mapRecordObj r
  /\ (forall st records start now,
        GuestList.guests
          (fst (GuestList.fetchGuests_resume st (Ok records) start now))
        = map mapRecord records)
  /\ (forall st start now,
        GuestDetail.guest
          (fst (GuestDetail.fetchGuest_resume st (Ok r) start now))
        = Some (mapRecord r)).
Proof.
  split.
  { unfold objFields, mapRecordObj; cbn.
    repeat constructor; apply js_or_empty_isString. }
  split; [reflexivity|].
  do 6 (split; [apply js_or_empty_OrEmpty|]).
  split.
  { unfold mapRecord, objOf, asGuest, mapRecordObj; cbn.
    now rewrite !js_or_empty_strOf. }
  split; reflexivity.
Qed.

Example missing_fields_become_empty :
  mapRecord janeRecord = jane.
Proof. reflexivity. Qed.

(* ================================================================= *)
(** ** Messages for remote failures *)




Example duplicate_email_message :
  AddGuest.createError rejectedEmail = "Email is already in use or invalid.".
Proof. reflexivity. Qed.

Example two_generic_create_messages :
  AddGuest.createError rejectedNoField
  = "Failed to add guest. Please check your input and try again."
  /\ AddGuest.createError networkDown
     = "Failed to add guest. Please check your connection and try again.".
Proof. split; reflexivity. Qed.

(* ================================================================= *)
(** ** One call at a time *)

Lemma removeFirst_count {A} (p : A -> bool) (l r : list A) :
  GuestDetail.removeFirst p l = Some r ->
  List.length (filter p l) = S (List.length (filter p r)).
Proof.
  revert r. induction l as [|a l IH]; intros r; simpl; [discriminate|].
  destruct (p a) eqn:Pa.
  - intros E. now injection E as ->.
  - destruct (GuestDetail.removeFirst p l) as [r'|]; [|discriminate].
    intros E. injection E as <-. simpl. rewrite Pa. now apply IH.
Qed.

Lemma removeFirst_other {A} (p q : A -> bool) (l r : list A) :
  (forall x, p x = true -> q x = false) ->
  GuestDetail.removeFirst p l = Some r -> filter q r = filter q l.
Proof.
  intros D. revert r. induction l as [|a l IH]; intros r; simpl; [discriminate|].
  destruct (p a) eqn:Pa.
  - intros E. injection E as ->. now rewrite (D a Pa).
  - destruct (GuestDetail.removeFirst p l) as [r'|]; [|discriminate].
    intros E. injection E as <-. simpl. now rewrite (IH r' eq_refl).
Qed.

Lemma create_step_serialised (v : AddGuest.View) (ev : AddGuest.Event) :
  CreateSerialised v -> CreateSerialised (AddGuest.step v ev).
Proof.
  intros I. destruct ev as [|name value|resp]; simpl.
  - destruct (AddGuest.loading (AddGuest.st v)) eqn:L; [exact I|].
    destruct I as [P|(c & P & L')]; [|congruence].
    unfold AddGuest.handleSubmit_begin.
    destruct (AddGuest.requiredMissing _); cbn; rewrite P.
    + now left.
    + right. eexists. split; reflexivity.
  - destruct (AddGuest.loading (AddGuest.st v)) eqn:L; [exact I|].
    destruct I as [P|(c & P & L')]; [|congruence]. now left.
  - destruct I as [P|(c & P & L')]; rewrite P; now left.
Qed.

Lemma create_is_serialised (evs : list AddGuest.Event) (v : AddGuest.View) :
  CreateSerialised v ->
  (List.length (AddGuest.pending (AddGuest.run v evs)) <= 1)%nat.
Proof.
  intros I.
  assert (J : CreateSerialised (AddGuest.run v evs)).
  { unfold AddGuest.run. revert v I.
    induction evs as [|ev evs IH]; intros v I; [exact I|].
    simpl. apply IH. now apply create_step_serialised. }
  destruct J as [P|(c & P & _)]; rewrite P; simpl; lia.
Qed.

Lemma buttonsEnabled_idle (st : GuestDetail.State) :
  GuestDetail.buttonsEnabled st = true ->
  GuestDetail.updating st = false /\ GuestDetail.loading st = false
  /\ exists g, GuestDetail.guest st = Some g.
Proof.
  unfold GuestDetail.buttonsEnabled, GuestDetail.render.
  destruct (GuestDetail.loading st), (GuestDetail.updating st); simpl;
    try discriminate.
  destruct (GuestDetail.guest st) as [g|]; [|discriminate].
  intros _. repeat split. now exists g.
Qed.

Lemma update_step_serialised (v : GuestDetail.View) (ev : GuestDetail.Event) :
  UpdateSerialised v -> UpdateSerialised (GuestDetail.step v ev).
Proof.
  intros [I1 I2]. unfold UpdateSerialised, updatesInFlight in *.
  destruct ev as [|answer|name value|resp start now|resp|a]; simpl.
  - destruct (GuestDetail.left v || negb (GuestDetail.buttonsEnabled (GuestDetail.st v)))
      eqn:G; [now split|].
    apply orb_false_elim in G as [_ G]. apply negb_false_iff in G.
    destruct (buttonsEnabled_idle _ G) as (U & _ & g & Hg).
    specialize (I1 U).
    unfold GuestDetail.handleUpdate_begin. rewrite Hg.
    destruct (GuestDetail.requiredMissing g); cbn.
    + rewrite app_nil_r. split; [intros _; exact I1|lia].
    + rewrite filter_app, List.length_app. cbn. split; [discriminate|lia].
  - destruct (GuestDetail.left v || negb (GuestDetail.buttonsEnabled (GuestDetail.st v)))
      eqn:G; [now split|].
    apply orb_false_elim in G as [_ G]. apply negb_false_iff in G.
    destruct (buttonsEnabled_idle _ G) as (U & _ & g & Hg).
    unfold GuestDetail.handleDelete_begin. rewrite Hg.
    destruct answer; cbn; rewrite filter_app, List.length_app; cbn;
      rewrite Nat.add_0_r; now split.
  - destruct (GuestDetail.left v || negb (GuestDetail.buttonsEnabled (GuestDetail.st v)))
      eqn:G; [now split|].
    cbn. unfold GuestDetail.handleChange.
    destruct (GuestDetail.guest (GuestDetail.st v)); now split.
  - destruct (GuestDetail.removeFirst GuestDetail.isUpdate (GuestDetail.pending v))
      as [rest|] eqn:R; [|now split].
    pose proof (removeFirst_count _ _ _ R) as C.
    unfold GuestDetail.handleUpdate_resume.
    destruct resp; cbn; rewrite filter_app, List.length_app; cbn.
    + split; [intros U; specialize (I1 U)|]; lia.
    + split; [intros U; specialize (I1 U)|]; lia.
  - destruct (GuestDetail.removeFirst GuestDetail.isDelete (GuestDetail.pending v))
      as [rest|] eqn:R; [|now split].
    assert (F : filter GuestDetail.isUpdate rest
                = filter GuestDetail.isUpdate (GuestDetail.pending v)).
    { eapply removeFirst_other; [|exact R]. now intros []. }
    destruct resp; cbn; rewrite F, app_nil_r; now split.
  - destruct (GuestDetail.removeFirst (GuestDetail.isAction a) (GuestDetail.timers v))
      as [rest|] eqn:R; [|now split].
    destruct a; cbn.
    + assert (F : filter (GuestDetail.isAction ClearUpdating) rest
                  = filter (GuestDetail.isAction ClearUpdating)
                      (GuestDetail.timers v)).
      { eapply removeFirst_other; [|exact R]. now intros []. }
      rewrite F. now split.
    + pose proof (removeFirst_count _ _ _ R) as C. split; [intros _|]; lia.
Qed.

Lemma update_is_serialised (evs : list GuestDetail.Event) (g : Guest) :
  (List.length (filter GuestDetail.isUpdate
             (GuestDetail.pending (GuestDetail.run (GuestDetail.showing g) evs)))
   <= 1)%nat.
Proof.
  assert (I : UpdateSerialised (GuestDetail.showing g))
    by (split; [reflexivity|cbn; lia]).
  assert (J : UpdateSerialised (GuestDetail.run (GuestDetail.showing g) evs)).
  { unfold GuestDetail.run. revert I. generalize (GuestDetail.showing g).
    induction evs as [|ev evs IH]; intros v I; [exact I|].
    simpl. apply IH. now apply update_step_serialised. }
  destruct J as [_ J]. unfold updatesInFlight in J. lia.
Qed.

(** C7 fails for delete. [handleDelete] raises no flag: after a confirmed
    click on Delete, while the call is outstanding, [updating] is still
    false and the buttons are still enabled, so a second confirmed click
    issues a second delete of the same record, and both are in flight. *)
Theorem delete_sets_no_flag (g : Guest) :
  let v1 := GuestDetail.run (GuestDetail.showing g) [GuestDetail.ClickDelete true] in
  let v2 := GuestDetail.step v1 (GuestDetail.ClickDelete true) in
  GuestDetail.pending v1 = [Delete (id g)]
  /\ GuestDetail.updating (GuestDetail.st v1) = false
  /\ GuestDetail.buttonsEnabled (GuestDetail.st v1) = true
  /\ GuestDetail.pending v2 = [Delete (id g); Delete (id g)].
Proof. repeat split. Qed.

(** An update started while the delete is outstanding is sent as well. *)
Example update_during_delete :
  GuestDetail.pending
    (GuestDetail.run (GuestDetail.showing jane)
       [GuestDetail.ClickDelete true; GuestDetail.ClickUpdate])
  = [Delete (lit "g1"); Update (lit "g1") (GuestDetail.payload jane)].
Proof. reflexivity. Qed.

(** While an update is outstanding the same clicks do nothing. *)
Example clicks_during_update_ignored :
  GuestDetail.pending
    (GuestDetail.run (GuestDetail.showing jane)
       [GuestDetail.ClickUpdate; GuestDetail.ClickDelete true;
        GuestDetail.ClickUpdate])
  = [Update (lit "g1") (GuestDetail.payload jane)].
Proof. reflexivity. Qed.

(* ================================================================= *)
(** ** The local view filter *)

Lemma matchesSearch_iff {RT : StringRuntime} (searchTerm : jsstring) (g : Guest) :
  matchesSearch searchTerm g = true <-> Matches searchTerm g.
Proof.
  unfold matchesSearch, Matches. cbv zeta.
  now rewrite orb_true_iff, !includes_iff.
Qed.

Lemma kept_and_dropped {A} (keep : A -> bool) (xs : list A) :
  Permutation (filter keep xs ++ filter (fun x => negb (keep x)) xs) xs.
Proof.
  induction xs as [|x xs IH]; simpl; [constructor|].
  destruct (keep x); simpl; [now apply perm_skip|].
  symmetry. apply Permutation_cons_app. now symmetry.
Qed.

Lemma filter_keeps_all {A} (keep : A -> bool) (xs : list A) :
  Forall (fun x => keep x = true) xs -> filter keep xs = xs.
Proof.
  induction 1 as [|x xs Hx _ IH]; simpl; [reflexivity|].
  now rewrite Hx, IH.
Qed.

Lemma filteredGuests_perm {RT : StringRuntime} guests searchTerm sortBy :
  Permutation (filter (matchesSearch searchTerm) guests)
              (filteredGuests guests searchTerm sortBy).
Proof.
  unfold filteredGuests. generalize (filter (matchesSearch searchTerm) guests).
  intros l. induction l as [|a r IH]; simpl; [constructor|].
  etransitivity; [apply perm_skip, IH|].
  generalize (Array_sort (compareGuests sortBy) r). intros m.
  induction m as [|b m IHm]; simpl; [reflexivity|].
  destruct (compareGuests sortBy a b <=? 0); [reflexivity|].
  rewrite perm_swap. now apply perm_skip.
Qed.

(** C2. The fetched records split into the ones the view lists and the ones
    it drops: every listed record has the lower-cased search term as a
    substring of its lower-cased "first_name last_name" or of its lower-cased
    email, no dropped record has, and nothing is lost or duplicated. With
    the empty search term (whose lower-casing is empty) the filter keeps the
    list as it is, and the view lists every fetched record. *)
Theorem filter_keeps_exactly_matches
    (RT : StringRuntime) (guests : list Guest) (searchTerm : jsstring)
    (sortBy : SortKey) :
  let listed := filteredGuests guests searchTerm sortBy in
  (exists dropped,
      Permutation guests (listed ++ dropped)
      /\ Forall (Matches searchTerm) listed
      /\ Forall (fun g => ~ Matches searchTerm g) dropped)
  /\ (toLowerCase [] = [] ->
      filter (matchesSearch []) guests = guests
      /\ Permutation guests (filteredGuests guests [] sortBy)).
Proof.
  intros listed. subst listed. split.
  - exists (filter (fun g => negb (matchesSearch searchTerm g)) guests).
    split; [|split].
    + rewrite <- filteredGuests_perm. symmetry. apply kept_and_dropped.
    + rewrite <- filteredGuests_perm. apply Forall_forall.
      intros g Hg. apply filter_In in Hg as [_ Hg]. now apply matchesSearch_iff.
    + apply Forall_forall. intros g Hg. apply filter_In in Hg as [_ Hg].
      rewrite <- matchesSearch_iff. now destruct (matchesSearch searchTerm g).
  - intros E.
    assert (F : filter (matchesSearch []) guests = guests).
    { apply filter_keeps_all, Forall_forall. intros g _.
      unfold matchesSearch. cbv zeta. now rewrite E, includes_empty. }
    split; [exact F|].
    rewrite <- F at 1. apply filteredGuests_perm.
Qed.

Lemma filter_keeps_exactly_matches_witness :
  @toLowerCase AsciiRuntime [] = []
  /\ filter (@matchesSearch AsciiRuntime []) [bobUpper; jane] = [bobUpper; jane]
  /\ Permutation [bobUpper; jane]
       (@filteredGuests AsciiRuntime [bobUpper; jane] [] ByEmail).
Proof.
  split; [reflexivity|].
  exact (proj2 (filter_keeps_exactly_matches AsciiRuntime [bobUpper; jane] []
                  ByEmail) eq_refl).
Defined.

Example search_is_case_insensitive :
  @filteredGuests AsciiRuntime [jane; bobUpper; bobLower] (lit "BOB") ByName
  = [bobUpper; bobLower]
  /\ @filteredGuests AsciiRuntime [jane; bobUpper; bobLower] (lit "x.COM") ByEmail
     = [bobUpper; jane; bobLower]
  /\ @filteredGuests AsciiRuntime [jane; bobUpper; bobLower] (lit "e d") ByName
     = [jane].
Proof. repeat split. Qed.

(** C9, as stated, does not hold: the comparator lower-cases both keys
    before comparing them, so two names that differ only in case are of
    equal rank and stay in the order they were fetched in, whatever the
    collation says about the names themselves. Here "Bob Ray" was fetched
    before "bob Ray", the collation puts "bob Ray" first, and the view lists
    "Bob Ray" first. *)
Lemma sort_by_name_itself_counterexample :
  ~ StronglySorted (precedes (@byKey AsciiRuntime (rawKey ByName)))
      (@filteredGuests AsciiRuntime [bobUpper; bobLower] [] ByName).
Proof.
  intros S. inversion S as [|a l _ F]; subst.
  inversion F as [|b m P _]; subst.
  vm_compute in P. now apply P.
Qed.

(** In any runtime: two records whose keys differ for the collation but not
    once lower-cased are left as they come, in both orders, and one of the
    two orders is not ascending for the keys themselves. *)
Lemma case_variants_keep_fetch_order
    (RT : StringRuntime) (sortBy : SortKey) (a b : Guest) :
  ConsistentCompare localeCompare ->
  sortKey sortBy a = sortKey sortBy b ->
  localeCompare (rawKey sortBy a) (rawKey sortBy b) <> 0 ->
  Array_sort (compareGuests sortBy) [a; b] = [a; b]
  /\ Array_sort (compareGuests sortBy) [b; a] = [b; a]
  /\ ~ (StronglySorted (precedes (byKey (rawKey sortBy))) [a; b]
        /\ StronglySorted (precedes (byKey (rawKey sortBy))) [b; a]).
Proof.
  intros C K D.
  assert (Z0 : forall x, localeCompare x x = 0).
  { intros x. pose proof (cmp_flip _ C x x).
    destruct (localeCompare x x); simpl in *; lia. }
  repeat split.
  - simpl. rewrite compareGuests_byKey. unfold byKey. now rewrite K, Z0.
  - simpl. rewrite compareGuests_byKey. unfold byKey. now rewrite K, Z0.
  - intros [S1 S2].
    inversion S1 as [|? ? _ F1]; subst. inversion F1 as [|? ? P1 _]; subst.
    inversion S2 as [|? ? _ F2]; subst. inversion F2 as [|? ? P2 _]; subst.
    unfold precedes, byKey in P1, P2.
    pose proof (cmp_le_flip _ C _ _ P2). lia.
Qed.

(** C9, amended. Sorting by name orders the listed records ascending by the
    locale-aware comparison of the lower-cased "first_name last_name", and
    sorting by email ascending by that of the lower-cased email; the sort is
    stable (records whose lower-cased keys compare equal keep the order they
    had in the filtered list, and nothing is lost or duplicated); and it is
    idempotent: a list already in that order is returned as it is, and so is
    the view's own output when filtered and sorted again. *)
Theorem sort_orders_by_lowercased_key
    (RT : StringRuntime) (guests : list Guest) (searchTerm : jsstring)
    (sortBy : SortKey) :
  ConsistentCompare localeCompare ->
  let kept := filter (matchesSearch searchTerm) guests in
  let listed := filteredGuests guests searchTerm sortBy in
  StableSortOf (byKey (sortKey sortBy)) kept listed
  /\ (forall l,
        StronglySorted (precedes (byKey (sortKey sortBy))) l ->
        Array_sort (compareGuests sortBy) l = l)
  /\ filteredGuests listed searchTerm sortBy = listed.
Proof.
  intros C kept listed.
  assert (CK : ConsistentCompare (byKey (sortKey sortBy)))
    by (apply (byKey_consistent localeCompare (sortKey sortBy) C)).
  assert (E : forall l, Array_sort (compareGuests sortBy) l
                        = Array_sort (byKey (sortKey sortBy)) l)
    by (apply Array_sort_ext; intros; apply compareGuests_byKey).
  assert (S : StableSortOf (byKey (sortKey sortBy)) kept listed).
  { subst listed kept. unfold filteredGuests. rewrite E.
    now apply Array_sort_StableSortOf. }
  split; [exact S|]. split.
  - intros l Sl. rewrite E. now apply Array_sort_fixed.
  - destruct S as (P & Sd & _).
    unfold filteredGuests at 1. fold kept.
    assert (F : filter (matchesSearch searchTerm) listed = listed).
    { apply filter_keeps_all, Forall_forall. intros g Hg.
      apply (Permutation_in _ (Permutation_sym P)) in Hg.
      subst kept. now apply filter_In in Hg as [_ Hg]. }
    rewrite F, E. now apply Array_sort_fixed.
Qed.

Lemma sort_orders_by_lowercased_key_witness :
  ConsistentCompare (@localeCompare AsciiRuntime)
  /\ @filteredGuests AsciiRuntime
       (@filteredGuests AsciiRuntime [jane; bobUpper; bobLower] [] ByEmail)
       [] ByEmail
     = @filteredGuests AsciiRuntime [jane; bobUpper; bobLower] [] ByEmail.
Proof.
  split; [exact asciiLocaleCompare_consistent|].
  exact (proj2 (proj2 (sort_orders_by_lowercased_key AsciiRuntime
                         [jane; bobUpper; bobLower] [] ByEmail
                         asciiLocaleCompare_consistent))).
Defined.

Example sorted_by_name_and_by_email :
  @filteredGuests AsciiRuntime [jane; bobLower; bobUpper] [] ByName
  = [bobLower; bobUpper; jane]
  /\ @filteredGuests AsciiRuntime [jane; bobUpper; bobLower] [] ByName
     = [bobUpper; bobLower; jane]
  /\ @filteredGuests AsciiRuntime [jane; bobLower; bobUpper] [] ByEmail
     = [bobUpper; jane; bobLower].
Proof. repeat split. Qed.

(* ================================================================= *)
(** * Further properties of the code *)

(** ** The delay handed to [setTimeout] *)

(** The delay is never negative; it is the part of the floor not yet used
    up, and zero once the call has taken at least the floor; when the clock
    has not run backwards it is at most the floor. *)
Theorem finallyDelay_bounds (start now : Z) :
  0 <= finallyDelay start now
  /\ (now - start < MIN_LOADING_MS ->
      finallyDelay start now = MIN_LOADING_MS - (now - start))
  /\ (MIN_LOADING_MS <= now - start -> finallyDelay start now = 0)
  /\ (start <= now -> finallyDelay start now <= MIN_LOADING_MS).
Proof.
  unfold finallyDelay, MIN_LOADING_MS. cbv zeta.
  destruct (0 <? 1000 - (now - start)) eqn:E;
    [apply Z.ltb_lt in E|apply Z.ltb_ge in E]; repeat split; lia.
Qed.

Lemma finallyDelay_bounds_witness :
  10 - 0 < MIN_LOADING_MS /\ finallyDelay 0 10 = MIN_LOADING_MS - (10 - 0)
  /\ MIN_LOADING_MS <= 2000 - 0 /\ finallyDelay 0 2000 = 0
  /\ 0 <= 10 /\ finallyDelay 0 10 <= MIN_LOADING_MS.
Proof.
  pose proof (finallyDelay_bounds 0 10) as (_ & A & _ & C).
  pose proof (finallyDelay_bounds 0 2000) as (_ & _ & B & _).
  assert (H1 : 10 - 0 < MIN_LOADING_MS) by (unfold MIN_LOADING_MS; lia).
  assert (H2 : MIN_LOADING_MS <= 2000 - 0) by (unfold MIN_LOADING_MS; lia).
  assert (H3 : 0 <= 10) by lia.
  exact (conj H1 (conj (A H1) (conj H2 (conj (B H2) (conj H3 (C H3)))))).
Defined.

(** ** [trim] *)

Lemma trimStart_skips (pre s : jsstring) :
  allWhiteSpace pre = true -> trimStart (pre ++ s) = trimStart s.
Proof.
  induction pre as [|c pre IH]; simpl; [reflexivity|].
  destruct (isWhiteSpace c); simpl; [exact IH|discriminate].
Qed.

Lemma trimEnd_skips (s post : jsstring) :
  allWhiteSpace post = true -> trimEnd (s ++ post) = trimEnd s.
Proof.
  intros W. unfold trimEnd. rewrite rev_app_distr, trimStart_skips; auto.
  now rewrite allWhiteSpace_rev.
Qed.

Lemma trimEnd_clean (t : jsstring) :
  (forall r c, t = r ++ [c] -> isWhiteSpace c = false) -> trimEnd t = t.
Proof.
  intros L. unfold trimEnd. destruct (rev t) as [|d q] eqn:R.
  - apply (f_equal (@rev N)) in R. now rewrite rev_involutive in R.
  - assert (E : t = rev q ++ [d]).
    { apply (f_equal (@rev N)) in R. now rewrite rev_involutive in R. }
    simpl. rewrite (L _ _ E). simpl. now rewrite E.
Qed.

Lemma TrimOf_is_trim (s t : jsstring) : TrimOf s t -> trim s = t.
Proof.
  intros (pre & post & -> & Wpre & Wpost & Hd & Lt).
  unfold trim. rewrite trimStart_skips by exact Wpre.
  destruct t as [|c r].
  - simpl. apply trimStart_nil_iff in Wpost. now rewrite Wpost.
  - cbn [app trimStart]. rewrite (Hd c r eq_refl).
    change (c :: r ++ post) with ((c :: r) ++ post).
    rewrite trimEnd_skips by exact Wpost. now apply trimEnd_clean.
Qed.

(** [trim s] is the only string that is [s] without its surrounding white
    space: whatever is obtained from [s] by removing a run of white space at
    each end, leaving none at either end, is [trim s]; and [trim s] is
    obtained that way. *)
Theorem trim_unique (s t : jsstring) : TrimOf s t <-> trim s = t.
Proof.
  split; [apply TrimOf_is_trim|]. intros <-. apply trim_is_TrimOf.
Qed.

Lemma trim_unique_witness :
  TrimOf (lit "  Jane Doe ") (lit "Jane Doe")
  /\ trim (lit "  Jane Doe ") = lit "Jane Doe".
Proof.
  assert (T : TrimOf (lit "  Jane Doe ") (lit "Jane Doe")).
  { exists (lit "  "), (lit " "). repeat split.
    - intros c r E. injection E as <- _. reflexivity.
    - intros r c E. apply (f_equal (@rev N)) in E.
      rewrite rev_app_distr in E. simpl in E. injection E as <- _. reflexivity. }
  exact (conj T (proj1 (trim_unique _ _) T)).
Defined.

(** Trimming twice is trimming once, white space added around a string does
    not change what it trims to, white space inside is kept, and trimming
    never makes a string longer. *)
Theorem trim_idempotent_and_padding (s : jsstring) :
  trim (trim s) = trim s
  /\ (forall pre post,
        allWhiteSpace pre = true -> allWhiteSpace post = true ->
        trim (pre ++ s ++ post) = trim s)
  /\ Substring (trim s) s
  /\ (List.length (trim s) <= List.length s)%nat.
Proof.
  destruct (trim_is_TrimOf s) as (p1 & p2 & E & W1 & W2 & C).
  pose proof TrimOf_is_trim as U.
  repeat split.
  - apply U. exists [], []. rewrite app_nil_r. repeat split; apply C.
  - intros pre post Wpre Wpost. apply U.
    exists (pre ++ p1), (p2 ++ post). repeat split; try apply C.
    + rewrite E at 1. now rewrite <- !app_assoc.
    + unfold allWhiteSpace in *. rewrite forallb_app. now rewrite Wpre, W1.
    + unfold allWhiteSpace in *. rewrite forallb_app. now rewrite Wpost, W2.
  - now exists p1, p2.
  - rewrite E at 2. rewrite !List.length_app. lia.
Qed.

Lemma trim_idempotent_and_padding_witness :
  allWhiteSpace (lit " ") = true /\ allWhiteSpace (lit "  ") = true
  /\ trim (lit " " ++ lit "a b" ++ lit "  ") = trim (lit "a b")
  /\ trim (lit "a b") = lit "a b".
Proof.
  split; [reflexivity|]. split; [reflexivity|]. split; [|reflexivity].
  exact (proj1 (proj2 (trim_idempotent_and_padding (lit "a b")))
           (lit " ") (lit "  ") eq_refl eq_refl).
Defined.

(** ** [includes] *)

(** [s.includes(t)] holds exactly when [t] occurs in [s]; so the empty
    string is found in every string, every string is found in itself, only
    the empty string is found in the empty string, and nothing longer than
    [s] is found in [s]. *)
Theorem includes_is_substring_search (s t : jsstring) :
  (includes s t = true <-> exists pre post, s = pre ++ t ++ post)
  /\ includes s [] = true
  /\ includes s s = true
  /\ (includes [] t = true <-> t = [])
  /\ (includes s t = true -> (List.length t <= List.length s)%nat).
Proof.
  assert (I : forall a b, includes a b = true
                          <-> exists pre post, a = pre ++ b ++ post)
    by (intros a b; apply includes_iff).
  split; [apply I|]. split; [apply I; now exists [], s|].
  split; [apply I; exists [], []; now rewrite app_nil_r|]. split.
  - rewrite I. split.
    + intros (pre & post & E). destruct pre; [|discriminate E].
      destruct t; [reflexivity|discriminate E].
    + intros ->. now exists [], [].
  - rewrite I. intros (pre & post & ->). rewrite !List.length_app. lia.
Qed.

Lemma includes_is_substring_search_witness :
  includes (lit "jane doe") (lit "e d") = true
  /\ (List.length (lit "e d") <= List.length (lit "jane doe"))%nat.
Proof.
  split; [reflexivity|].
  exact (proj2 (proj2 (proj2 (proj2
           (includes_is_substring_search (lit "jane doe") (lit "e d")))))
           eq_refl).
Defined.

(** ** Searching and sorting together *)

Lemma filter_respects_perm {A} (keep : A -> bool) (xs ys : list A) :
  Permutation xs ys -> Permutation (filter keep xs) (filter keep ys).
Proof.
  induction 1 as [|x xs ys _ IH|x y xs|xs ys zs _ IH1 _ IH2]; simpl.
  - constructor.
  - destruct (keep x); [now apply perm_skip|exact IH].
  - destruct (keep x), (keep y); try reflexivity. apply perm_swap.
  - now transitivity (filter keep ys).
Qed.

Lemma filter_keeps_sorted {A} (R : A -> A -> Prop) (keep : A -> bool) xs :
  StronglySorted R xs -> StronglySorted R (filter keep xs).
Proof.
  induction 1 as [|x xs _ IH F]; simpl; [constructor|].
  destruct (keep x); [|exact IH]. constructor; [exact IH|].
  apply Forall_forall. intros y Hy. apply filter_In in Hy as [Hy _].
  rewrite Forall_forall in F. now apply F.
Qed.

Lemma filter_twice_swap {A} (p q : A -> bool) (xs : list A) :
  filter p (filter q xs) = filter q (filter p xs).
Proof.
  induction xs as [|x xs IH]; simpl; [reflexivity|].
  destruct (p x) eqn:P, (q x) eqn:Q; simpl; rewrite ?P, ?Q, IH; reflexivity.
Qed.

Lemma filter_implied {A} (p q : A -> bool) (xs : list A) :
  (forall x, In x xs -> p x = true -> q x = true) ->
  filter p (filter q xs) = filter p xs.
Proof.
  induction xs as [|x xs IH]; intros H; simpl; [reflexivity|].
  assert (IH' : filter p (filter q xs) = filter p xs)
    by (apply IH; intros y Hy; apply H; now right).
  destruct (q x) eqn:Q; simpl.
  - now rewrite IH'.
  - destruct (p x) eqn:P; [|exact IH'].
    rewrite (H x (or_introl eq_refl) P) in Q. discriminate Q.
Qed.

Lemma compareGuests_consistent {RT : StringRuntime} (sortBy : SortKey) :
  ConsistentCompare localeCompare -> ConsistentCompare (compareGuests sortBy).
Proof.
  intros C. destruct sortBy.
  - exact (byKey_consistent localeCompare
             (fun g => toLowerCase (fullName g)) C).
  - exact (byKey_consistent localeCompare (fun g => toLowerCase (email g)) C).
Qed.

(** Filtering a sorted list gives the sorted filtered list. *)
Lemma sort_then_filter {A} (cmp : A -> A -> Z) (keep : A -> bool) xs :
  ConsistentCompare cmp ->
  filter keep (Array_sort cmp xs) = Array_sort cmp (filter keep xs).
Proof.
  intros C. apply (StableSortOf_unique cmp C). split; [|split].
  - apply filter_respects_perm, Array_sort_perm.
  - apply filter_keeps_sorted. now apply Array_sort_sorted.
  - intros x. rewrite filter_twice_swap, (Array_sort_stable cmp C).
    apply filter_twice_swap.
Qed.

Lemma Substring_trans (a b c : jsstring) :
  Substring a b -> Substring b c -> Substring a c.
Proof.
  intros (p1 & q1 & ->) (p2 & q2 & ->).
  exists (p2 ++ p1), (q1 ++ q2). now rewrite <- !app_assoc.
Qed.

(** Refining a search only removes rows: when the lower-cased old term
    occurs in the lower-cased new one, the new listing is the old listing
    with the rows that no longer match taken out, the others in the order
    they had. *)
Theorem refined_search_filters_listing
    (RT : StringRuntime) (guests : list Guest) (old new : jsstring)
    (sortBy : SortKey) :
  ConsistentCompare localeCompare ->
  Substring (toLowerCase old) (toLowerCase new) ->
  filteredGuests guests new sortBy
  = filter (matchesSearch new) (filteredGuests guests old sortBy).
Proof.
  intros C S. unfold filteredGuests.
  rewrite (sort_then_filter _ _ _ (compareGuests_consistent sortBy C)).
  f_equal. symmetry. apply filter_implied.
  intros g _. rewrite !matchesSearch_iff. unfold Matches.
  intros [M|M]; [left|right]; eapply Substring_trans; eauto.
Qed.

Lemma refined_search_filters_listing_witness :
  ConsistentCompare (@localeCompare AsciiRuntime)
  /\ Substring (@toLowerCase AsciiRuntime (lit "Bo"))
       (@toLowerCase AsciiRuntime (lit "bob@"))
  /\ @filteredGuests AsciiRuntime [jane; bobLower; bobUpper] (lit "bob@") ByName
     = filter (@matchesSearch AsciiRuntime (lit "bob@"))
         (@filteredGuests AsciiRuntime [jane; bobLower; bobUpper] (lit "Bo")
            ByName).
Proof.
  assert (S : Substring (@toLowerCase AsciiRuntime (lit "Bo"))
                (@toLowerCase AsciiRuntime (lit "bob@")))
    by (exists [], (lit "b@"); reflexivity).
  exact (conj asciiLocaleCompare_consistent
           (conj S (refined_search_filters_listing AsciiRuntime
                      [jane; bobLower; bobUpper] (lit "Bo") (lit "bob@") ByName
                      asciiLocaleCompare_consistent S))).
Defined.

Lemma same_rank_rows_perm {A} (cmp : A -> A -> Z) (xs ys : list A) :
  ConsistentCompare cmp -> Permutation xs ys -> RanksDistinct cmp xs ->
  forall z, filter (sameRank cmp z) xs = filter (sameRank cmp z) ys.
Proof.
  intros C P. induction P as [|x xs ys P IH|x y xs|xs ys zs P1 IH1 P2 IH2];
    intros D z.
  - reflexivity.
  - simpl. rewrite IH; [reflexivity|].
    intros a b Ha Hb. apply D; now right.
  - simpl. destruct (sameRank cmp z y) eqn:Ry, (sameRank cmp z x) eqn:Rx;
      try reflexivity.
    assert (E : y = x).
    { apply D; [now left|right; now left|].
      exact (sameRank_join cmp C z y x Ry Rx). }
    now rewrite E.
  - rewrite IH1 by exact D. apply IH2.
    intros a b Ha Hb. apply D; eapply Permutation_in;
      try (apply Permutation_sym; exact P1); assumption.
Qed.

(** When no two different fetched records have keys that compare equal, the
    listing does not depend on the order in which the store returned the
    records. *)
Theorem listing_independent_of_fetch_order
    (RT : StringRuntime) (guests guests' : list Guest)
    (searchTerm : jsstring) (sortBy : SortKey) :
  ConsistentCompare localeCompare ->
  Permutation guests guests' ->
  RanksDistinct (compareGuests sortBy) guests ->
  filteredGuests guests searchTerm sortBy
  = filteredGuests guests' searchTerm sortBy.
Proof.
  intros C P D. pose proof (compareGuests_consistent sortBy C) as CK.
  unfold filteredGuests.
  set (kept := filter (matchesSearch searchTerm) guests).
  set (kept' := filter (matchesSearch searchTerm) guests').
  assert (PK : Permutation kept kept') by now apply filter_respects_perm.
  assert (DK : RanksDistinct (compareGuests sortBy) kept).
  { intros a b Ha Hb. apply D.
    - now apply filter_In in Ha as [Ha _].
    - now apply filter_In in Hb as [Hb _]. }
  apply (stable_sort_unique _ CK).
  - now apply Array_sort_sorted.
  - now apply Array_sort_sorted.
  - rewrite <- (Array_sort_perm (compareGuests sortBy) kept).
    rewrite <- (Array_sort_perm (compareGuests sortBy) kept'). exact PK.
  - intros z. rewrite !(Array_sort_stable _ CK).
    now apply same_rank_rows_perm.
Qed.

Lemma listing_independent_of_fetch_order_witness :
  ConsistentCompare (@localeCompare AsciiRuntime)
  /\ Permutation [jane; bobUpper] [bobUpper; jane]
  /\ RanksDistinct (@compareGuests AsciiRuntime ByEmail) [jane; bobUpper]
  /\ @filteredGuests AsciiRuntime [jane; bobUpper] [] ByEmail
     = @filteredGuests AsciiRuntime [bobUpper; jane] [] ByEmail.
Proof.
  assert (D : RanksDistinct (@compareGuests AsciiRuntime ByEmail)
                [jane; bobUpper]).
  { intros a b [<-|[<-|[]]] [<-|[<-|[]]] E; try reflexivity;
      vm_compute in E; discriminate E. }
  exact (conj asciiLocaleCompare_consistent
           (conj (perm_swap _ _ _)
              (conj D (listing_independent_of_fetch_order AsciiRuntime
                         [jane; bobUpper] [bobUpper; jane] [] ByEmail
                         asciiLocaleCompare_consistent (perm_swap _ _ _) D)))).
Defined.

(** The search box and the sort selector touch nothing but their own piece
    of state: each leaves the fetched records, the loading flag, the error
    and the other control as they were; changing the sort key never adds or
    removes a row; and clearing the search (when lower-casing the empty
    string gives the empty string) lists every fetched record again. *)
Theorem search_and_sort_controls (RT : StringRuntime) (st : GuestList.State) :
  (forall value,
      let st' := GuestList.handleSearchChange value st in
      GuestList.searchTerm st' = value
      /\ GuestList.guests st' = GuestList.guests st
      /\ GuestList.loading st' = GuestList.loading st
      /\ GuestList.error st' = GuestList.error st
      /\ GuestList.sortBy st' = GuestList.sortBy st)
  /\ (forall key,
        let st' := GuestList.handleSortChange key st in
        GuestList.sortBy st' = key
        /\ GuestList.guests st' = GuestList.guests st
        /\ GuestList.loading st' = GuestList.loading st
        /\ GuestList.error st' = GuestList.error st
        /\ GuestList.searchTerm st' = GuestList.searchTerm st
        /\ Permutation (GuestList.visibleGuests st)
             (GuestList.visibleGuests st'))
  /\ (let st' := GuestList.clearSearch st in
      GuestList.searchTerm st' = []
      /\ GuestList.guests st' = GuestList.guests st
      /\ GuestList.loading st' = GuestList.loading st
      /\ GuestList.error st' = GuestList.error st
      /\ GuestList.sortBy st' = GuestList.sortBy st
      /\ (toLowerCase [] = [] ->
          Permutation (GuestList.guests st) (GuestList.visibleGuests st'))).
Proof.
  split; [intros value; repeat split|]. split.
  - intros key. cbv zeta. do 5 (split; [reflexivity|]).
    unfold GuestList.visibleGuests. cbn.
    transitivity (filter (matchesSearch (GuestList.searchTerm st))
                    (GuestList.guests st)).
    + symmetry. apply filteredGuests_perm.
    + apply filteredGuests_perm.
  - cbv zeta. do 5 (split; [reflexivity|]). intros E.
    unfold GuestList.visibleGuests. cbn.
    transitivity (filter (matchesSearch []) (GuestList.guests st));
      [|apply filteredGuests_perm].
    rewrite filter_keeps_all; [reflexivity|].
    apply Forall_forall. intros g _. unfold matchesSearch. cbv zeta.
    now rewrite E, includes_empty.
Qed.

Lemma search_and_sort_controls_witness :
  @toLowerCase AsciiRuntime [] = []
  /\ Permutation [jane; bobUpper]
       (@GuestList.visibleGuests AsciiRuntime
          (GuestList.clearSearch
             (GuestList.handleSearchChange (lit "zzz")
                (GuestList.setGuests [jane; bobUpper] (GuestList.init false))))).
Proof.
  split; [reflexivity|].
  exact (proj2 (proj2 (proj2 (proj2 (proj2 (proj2 (proj2
           (search_and_sort_controls AsciiRuntime
              (GuestList.handleSearchChange (lit "zzz")
                 (GuestList.setGuests [jane; bobUpper]
                    (GuestList.init false)))))))))) eq_refl).
Defined.

(** ** What is on screen, over time *)

Ltac after_floor start now t :=
  unfold stateAt; cbn [fst snd];
  destruct (t <? start) eqn:Hstart; [apply Z.ltb_lt in Hstart; lia|];
  destruct (t <? now) eqn:Hnow;
  [apply Z.ltb_lt in Hnow|apply Z.ltb_ge in Hnow].

(** The list view shows the loading text from the start of its fetch until
    the floor has run out and the fetch has settled, and nothing else in
    between, not even the error of a fetch that has already failed. From
    then on a failed fetch shows the failure text, and a successful one the
    fetched records that match the search box, sorted, or the no-guests
    notice when none does. *)
Theorem list_screen_over_time
    (RT : StringRuntime) (st : GuestList.State)
    (resp : Result (list RecordModel)) (start now t : Z) :
  start <= t ->
  listScreenAt st resp start now t
  = if t <? start + Z.max (now - start) MIN_LOADING_MS then ListLoading
    else
      match resp with
      | Ok records =>
          listPage (filteredGuests (map mapRecord records)
                      (GuestList.searchTerm st) (GuestList.sortBy st))
      | Err _ => ListError "Failed to load guests. Check console for details."
      end.
Proof.
  intros Ht. rewrite <- finallyDelay_fires_at.
  pose proof (finallyDelay_nonneg start now) as Hd.
  unfold listScreenAt. after_floor start now t.
  - assert (E : (t <? now + finallyDelay start now) = true)
      by (apply Z.ltb_lt; lia).
    now rewrite E.
  - unfold GuestList.fetchGuests_resume.
    destruct resp; cbn [fst snd]; rewrite ?fireDue_app; simpl;
      destruct (now + finallyDelay start now <=? t) eqn:E;
      [apply Z.leb_le in E|apply Z.leb_gt in E
      |apply Z.leb_le in E|apply Z.leb_gt in E].
    + assert (F : (t <? now + finallyDelay start now) = false)
        by (apply Z.ltb_ge; lia).
      now rewrite F.
    + assert (F : (t <? now + finallyDelay start now) = true)
        by (apply Z.ltb_lt; lia).
      now rewrite F.
    + assert (F : (t <? now + finallyDelay start now) = false)
        by (apply Z.ltb_ge; lia).
      now rewrite F.
    + assert (F : (t <? now + finallyDelay start now) = true)
        by (apply Z.ltb_lt; lia).
      now rewrite F.
Qed.

Lemma list_screen_over_time_witness :
  0 <= 999
  /\ @listScreenAt AsciiRuntime (GuestList.init false) (Err networkDown) 0 10 999
     = ListLoading
  /\ 0 <= 1000
  /\ @listScreenAt AsciiRuntime (GuestList.init false) (Err networkDown) 0 10
       1000
     = ListError "Failed to load guests. Check console for details.".
Proof.
  assert (A : 0 <= 999) by lia. assert (B : 0 <= 1000) by lia.
  exact (conj A
           (conj (list_screen_over_time AsciiRuntime (GuestList.init false)
                    (Err networkDown) 0 10 999 A)
              (conj B
                 (list_screen_over_time AsciiRuntime (GuestList.init false)
                    (Err networkDown) 0 10 1000 B)))).
Defined.

(** Entered without a held record and with a usable id, the detail view
    shows its loading text until the floor has run out and the get has
    settled; then the form of the fetched record, with no error above it
    and its controls enabled, or in place of the form the message of the
    failure. *)
Theorem detail_screen_over_time
    (s : jsstring) (resp : Result RecordModel) (start now t : Z) :
  s <> [] -> start <= t ->
  detailScreenAt (Some s) (GuestDetail.init None) resp start now t
  = if t <? start + Z.max (now - start) MIN_LOADING_MS
    then GuestDetail.Indicator "Loading guest details..."
    else
      match resp with
      | Ok record => GuestDetail.Form (mapRecord record) None false
      | Err err => GuestDetail.Missing (GuestDetail.fetchError err)
      end.
Proof.
  intros Hs Ht. rewrite <- finallyDelay_fires_at.
  pose proof (finallyDelay_nonneg start now) as Hd.
  destruct s as [|u s]; [congruence|].
  unfold detailScreenAt. cbn [GuestDetail.effect_begin GuestDetail.init
    GuestDetail.guest isSome negb truthyStr fst].
  after_floor start now t.
  - assert (E : (t <? now + finallyDelay start now) = true)
      by (apply Z.ltb_lt; lia).
    now rewrite E.
  - unfold GuestDetail.fetchGuest_resume.
    destruct resp; cbn [fst snd]; rewrite ?fireDue_app; simpl;
      destruct (now + finallyDelay start now <=? t) eqn:E;
      [apply Z.leb_le in E|apply Z.leb_gt in E
      |apply Z.leb_le in E|apply Z.leb_gt in E].
    + assert (F : (t <? now + finallyDelay start now) = false)
        by (apply Z.ltb_ge; lia).
      now rewrite F.
    + assert (F : (t <? now + finallyDelay start now) = true)
        by (apply Z.ltb_lt; lia).
      now rewrite F.
    + assert (F : (t <? now + finallyDelay start now) = false)
        by (apply Z.ltb_ge; lia).
      now rewrite F.
    + assert (F : (t <? now + finallyDelay start now) = true)
        by (apply Z.ltb_lt; lia).
      now rewrite F.
Qed.

Lemma detail_screen_over_time_witness :
  lit "g1" <> [] /\ 0 <= 1500
  /\ detailScreenAt (Some (lit "g1")) (GuestDetail.init None) (Err notFound)
       0 10 1500
     = GuestDetail.Missing "Guest not found".
Proof.
  assert (A : lit "g1" <> []) by discriminate. assert (B : 0 <= 1500) by lia.
  exact (conj A (conj B (detail_screen_over_time (lit "g1") (Err notFound)
                           0 10 1500 A B))).
Defined.

(** Entered without a held record and without a usable id (none, or the
    empty string), the detail view makes no call and sets no timer; it shows
    at once, in place of the form, that no id was provided. *)
Theorem detail_without_id
    (i : option jsstring) (resp : Result RecordModel) (start now : Z) :
  i = None \/ i = Some [] ->
  let out := GuestDetail.mount i None resp start now in
  snd out = []
  /\ GuestDetail.loading (fst out) = false
  /\ GuestDetail.render (fst out) = GuestDetail.Missing "No guest ID provided".
Proof. intros [-> | ->]; repeat split. Qed.

Lemma detail_without_id_witness :
  ((Some [] : option jsstring) = None \/ Some [] = Some ([] : jsstring))
  /\ snd (GuestDetail.mount (Some []) None (Ok janeRecord) 0 10) = [].
Proof.
  split; [right; reflexivity|].
  exact (proj1 (detail_without_id (Some []) (Ok janeRecord) 0 10
                  (or_intror eq_refl))).
Defined.



(** ** Leaving for the list *)

(** Every call of [navigate] in the three views goes to "/guests". The
    handlers that make a call navigate exactly when the call went out and
    succeeded, and Cancel exactly when its question was answered yes; the
    Back buttons of the detail view navigate whenever they are on screen,
    without a call. Update, delete and the Back button of the form ask the
    list to start with its loading text up; create, Cancel and the Back
    button under the message shown in place of the form do not. The list,
    before its fetch has begun, shows the loading text in the first case
    and the no-guests notice in the second. *)
Theorem navigate_calls_go_to_the_list :
  (forall st resp start now,
      navigations (snd (GuestDetail.handleUpdate st resp start now))
      = match GuestDetail.guest st, resp with
        | Some g, Ok _ =>
            if GuestDetail.requiredMissing g then [] else [("/guests", true)]
        | _, _ => []
        end)
  /\ (forall st answer resp,
        navigations (snd (GuestDetail.handleDelete st answer resp))
        = match GuestDetail.guest st, resp with
          | Some _, Ok _ => if answer then [("/guests", true)] else []
          | _, _ => []
          end)
  /\ (forall st resp,
        navigations (snd (AddGuest.handleSubmit st resp))
        = match resp with
          | Ok _ =>
              if AddGuest.requiredMissing (AddGuest.guestData st) then []
              else [("/guests", false)]
          | Err _ => []
          end)
  /\ (forall answer,
        navigations (AddGuest.handleCancel answer)
        = if answer then [("/guests", false)] else [])
  /\ (forall st,
        netCalls (backClick st) = []
        /\ navigations (backClick st)
           = if GuestDetail.loading st || GuestDetail.updating st then []
             else [("/guests", isSome (GuestDetail.guest st))])
  /\ (forall (RT : StringRuntime) showLoading,
        listRender (GuestList.init showLoading)
        = if showLoading then ListLoading else NoGuestsFound).
Proof.
  split; [|split; [|split; [|split; [|split]]]].
  - intros st resp start now.
    unfold GuestDetail.handleUpdate, GuestDetail.handleUpdate_begin.
    destruct (GuestDetail.guest st) as [g|]; [|reflexivity].
    destruct (GuestDetail.requiredMissing g), resp; reflexivity.
  - intros st answer resp.
    unfold GuestDetail.handleDelete, GuestDetail.handleDelete_begin.
    destruct (GuestDetail.guest st) as [g|]; [|reflexivity].
    destruct answer, resp; reflexivity.
  - intros st resp. unfold AddGuest.handleSubmit, AddGuest.handleSubmit_begin.
    destruct (AddGuest.requiredMissing (AddGuest.guestData st)), resp;
      reflexivity.
  - intros []; reflexivity.
  - intros st. unfold backClick, GuestDetail.render.
    destruct (GuestDetail.loading st), (GuestDetail.updating st),
      (GuestDetail.guest st); split; reflexivity.
  - intros RT []; reflexivity.
Qed.

(** ** Editing the forms *)

(** Typing into an input changes that field to what was typed and leaves
    the five others as they were, in the create form and in the detail form
    alike; it changes no flag and no error; in the detail form it never
    changes the id, and does nothing when no record is held. *)
Theorem typing_changes_one_field (name other : FieldName) (value : jsstring) :
  (forall st,
      let st' := AddGuest.handleChange name value st in
      draftField name (AddGuest.guestData st') = value
      /\ (other <> name ->
          draftField other (AddGuest.guestData st')
          = draftField other (AddGuest.guestData st))
      /\ AddGuest.error st' = AddGuest.error st
      /\ AddGuest.loading st' = AddGuest.loading st)
  /\ (forall st g,
        GuestDetail.guest st = Some g ->
        let st' := GuestDetail.handleChange name value st in
        (exists g',
            GuestDetail.guest st' = Some g'
            /\ guestField name g' = value
            /\ (other <> name -> guestField other g' = guestField other g)
            /\ id g' = id g)
        /\ GuestDetail.loading st' = GuestDetail.loading st
        /\ GuestDetail.updating st' = GuestDetail.updating st
        /\ GuestDetail.error st' = GuestDetail.error st)
  /\ (forall st,
        GuestDetail.guest st = None ->
        GuestDetail.handleChange name value st = st).
Proof.
  split; [|split].
  - intros st. cbn zeta. repeat split.
    + destruct name; reflexivity.
    + destruct name, other; try reflexivity; intros N; now elim N.
  - intros st g Hg. cbv zeta. unfold GuestDetail.handleChange. rewrite Hg.
    split; [|split; [|split]]; try reflexivity.
    eexists. split; [reflexivity|]. repeat split.
    + destruct name; reflexivity.
    + destruct name, other; try reflexivity; intros N; now elim N.
    + destruct name; reflexivity.
  - intros st Hg. unfold GuestDetail.handleChange. now rewrite Hg.
Qed.

Lemma typing_changes_one_field_witness :
  F_email <> F_phone
  /\ GuestDetail.guest (GuestDetail.init (Some jane)) = Some jane
  /\ draftField F_email
       (AddGuest.guestData
          (AddGuest.handleChange F_phone (lit "555") (drafting janeDraft)))
     = draftField F_email (AddGuest.guestData (drafting janeDraft))
  /\ (exists g',
         GuestDetail.guest
           (GuestDetail.handleChange F_phone (lit "555")
              (GuestDetail.init (Some jane)))
         = Some g'
         /\ id g' = id jane)
  /\ GuestDetail.error
       (GuestDetail.handleChange F_phone (lit "555")
          (GuestDetail.init (Some jane)))
     = GuestDetail.error (GuestDetail.init (Some jane)).
Proof.
  assert (N : F_email <> F_phone) by discriminate.
  pose proof (typing_changes_one_field F_phone F_email (lit "555"))
    as (A & B & _).
  destruct (B (GuestDetail.init (Some jane)) jane eq_refl)
    as ((g' & E & _ & _ & I) & _ & _ & Er).
  split; [exact N|]. split; [reflexivity|]. split; [|split].
  - exact (proj1 (proj2 (A (drafting janeDraft))) N).
  - exists g'. split; [exact E|exact I].
  - exact Er.
Defined.

(** Update checks and transmits a record exactly as create would check and
    transmit a draft with the same six field values. *)
Theorem update_sends_what_create_would (g : Guest) :
  GuestDetail.requiredMissing g = AddGuest.requiredMissing (draftOf g)
  /\ GuestDetail.payload g = AddGuest.payload (draftOf g).
Proof.
  split; [reflexivity|].
  unfold GuestDetail.payload, AddGuest.payload, draftOf. cbn.
  now rewrite !str_or_nil.
Qed.

(** ** Submitting again *)

(** A failed create leaves the draft as typed, releases the form, and shows
    its error in place of any earlier one; nothing is sent again by
    itself, and submitting again sends the same fields once more. *)
Theorem failed_create_can_be_resubmitted
    (st : AddGuest.State) (err : ClientError) :
  AddGuest.loading st = false ->
  AddGuest.requiredMissing (AddGuest.guestData st) = false ->
  let failed :=
    AddGuest.run (composing st) [AddGuest.Submit; AddGuest.Settled (Err err)] in
  AddGuest.pending failed = []
  /\ AddGuest.guestData (AddGuest.st failed) = AddGuest.guestData st
  /\ AddGuest.loading (AddGuest.st failed) = false
  /\ AddGuest.error (AddGuest.st failed) = Some (AddGuest.createError err)
  /\ AddGuest.pending (AddGuest.step failed AddGuest.Submit)
     = [Create (AddGuest.payload (AddGuest.guestData st))]
  /\ AddGuest.pending (AddGuest.run (composing st) [AddGuest.Submit])
     = [Create (AddGuest.payload (AddGuest.guestData st))].
Proof.
  intros L V failed. subst failed.
  unfold AddGuest.run, composing. cbn [fold_left AddGuest.step AddGuest.st
    AddGuest.pending]. rewrite L.
  unfold AddGuest.handleSubmit_begin. rewrite V.
  cbn. rewrite V. repeat split.
Qed.

Lemma failed_create_can_be_resubmitted_witness :
  AddGuest.loading (drafting janeDraft) = false
  /\ AddGuest.requiredMissing (AddGuest.guestData (drafting janeDraft)) = false
  /\ AddGuest.pending
       (AddGuest.run (composing (drafting janeDraft))
          [AddGuest.Submit; AddGuest.Settled (Err networkDown)])
     = [].
Proof.
  exact (conj eq_refl (conj eq_refl
           (proj1 (failed_create_can_be_resubmitted (drafting janeDraft)
                     networkDown eq_refl eq_refl)))).
Defined.

(** ** What is in flight *)

Lemma draft_step_in_flight (v : AddGuest.View) (ev : AddGuest.Event) :
  DraftInFlight v -> DraftInFlight (AddGuest.step v ev).
Proof.
  intros I. destruct ev as [|name value|resp]; simpl.
  - destruct (AddGuest.loading (AddGuest.st v)) eqn:L; [exact I|].
    destruct I as [P|[P L']]; [|congruence].
    unfold AddGuest.handleSubmit_begin.
    destruct (AddGuest.requiredMissing _); cbn; rewrite P.
    + now left.
    + right. split; reflexivity.
  - destruct (AddGuest.loading (AddGuest.st v)) eqn:L; [exact I|].
    destruct I as [P|[P L']]; [|congruence]. now left.
  - destruct I as [P|[P L']]; rewrite P; now left.
Qed.

(** Whatever is done to the create form, at most one create is in flight,
    the form is locked while it is, and what is in flight is the draft as
    it stands on screen: the draft cannot be edited under a call that has
    gone out. *)
Theorem create_in_flight_is_the_draft
    (st : AddGuest.State) (evs : list AddGuest.Event) :
  let v := AddGuest.run (composing st) evs in
  AddGuest.pending v = []
  \/ (AddGuest.pending v
      = [Create (AddGuest.payload (AddGuest.guestData (AddGuest.st v)))]
      /\ AddGuest.loading (AddGuest.st v) = true).
Proof.
  cbv zeta. change (DraftInFlight (AddGuest.run (composing st) evs)).
  assert (I : DraftInFlight (composing st)) by now left.
  unfold AddGuest.run. revert I. generalize (composing st).
  induction evs as [|ev evs IH]; intros v I; [exact I|].
  simpl. apply IH. now apply draft_step_in_flight.
Qed.

Lemma removeFirst_incl {A} (p : A -> bool) (l r : list A) :
  GuestDetail.removeFirst p l = Some r -> forall x, In x r -> In x l.
Proof.
  revert r. induction l as [|a l IH]; intros r; simpl; [discriminate|].
  destruct (p a).
  - intros E. injection E as ->. intros x Hx. now right.
  - destruct (GuestDetail.removeFirst p l) as [r'|]; [|discriminate].
    intros E. injection E as <-. intros x [->|Hx]; [now left|].
    right. now apply (IH r' eq_refl).
Qed.

Lemma setField_keeps_id (name : FieldName) (value : jsstring) (g : Guest) :
  id (GuestDetail.setField name value g) = id g.
Proof. destruct name; reflexivity. Qed.

Lemma held_step (g : Guest) (v : GuestDetail.View) (ev : GuestDetail.Event) :
  UpdateSerialised v -> HeldRecordCalls g v ->
  HeldRecordCalls g (GuestDetail.step v ev).
Proof.
  intros [S1 S2] (G & T & U). unfold HeldRecordCalls.
  destruct ev as [|answer|name value|resp start now|resp|a]; simpl.
  - destruct (GuestDetail.left v || negb (GuestDetail.buttonsEnabled (GuestDetail.st v)))
      eqn:B; [exact (conj G (conj T U))|].
    apply orb_false_elim in B as [_ B]. apply negb_false_iff in B.
    destruct (buttonsEnabled_idle _ B) as (Up & _ & g0 & Hg).
    destruct G as (g1 & Hg1 & Hid). rewrite Hg in Hg1. injection Hg1 as <-.
    unfold GuestDetail.handleUpdate_begin. rewrite Hg.
    destruct (GuestDetail.requiredMissing g0); cbn.
    + rewrite app_nil_r. split; [now exists g0|]. split; [exact T|].
      intros i p Hin. destruct (U i p Hin) as [Ut _]. congruence.
    + split; [now exists g0|]. split.
      * apply Forall_app. split; [exact T|]. constructor; [|constructor].
        right. rewrite <- Hid. now eexists.
      * intros i p Hin. apply in_app_or in Hin as [Hin|[E|[]]].
        -- destruct (U i p Hin) as [Ut _]. congruence.
        -- injection E as <- <-. split; [reflexivity|now exists g0].
  - destruct (GuestDetail.left v || negb (GuestDetail.buttonsEnabled (GuestDetail.st v)))
      eqn:B; [exact (conj G (conj T U))|].
    apply orb_false_elim in B as [_ B]. apply negb_false_iff in B.
    destruct (buttonsEnabled_idle _ B) as (Up & _ & g0 & Hg).
    destruct G as (g1 & Hg1 & Hid). rewrite Hg in Hg1. injection Hg1 as <-.
    unfold GuestDetail.handleDelete_begin. rewrite Hg.
    destruct answer; cbn.
    + split; [now exists g0|]. split.
      * apply Forall_app. split; [exact T|]. constructor; [|constructor].
        left. now rewrite Hid.
      * intros i p Hin. apply in_app_or in Hin as [Hin|[E|[]]].
        -- destruct (U i p Hin) as [Ut _]. congruence.
        -- discriminate E.
    + rewrite app_nil_r. split; [now exists g0|]. split; [exact T|exact U].
  - destruct (GuestDetail.left v || negb (GuestDetail.buttonsEnabled (GuestDetail.st v)))
      eqn:B; [exact (conj G (conj T U))|].
    apply orb_false_elim in B as [_ B]. apply negb_false_iff in B.
    destruct (buttonsEnabled_idle _ B) as (Up & _ & g0 & Hg).
    destruct G as (g1 & Hg1 & Hid). rewrite Hg in Hg1. injection Hg1 as <-.
    cbn. unfold GuestDetail.handleChange. rewrite Hg. cbn.
    split; [eexists; split; [reflexivity|]; now rewrite setField_keeps_id|].
    split; [exact T|].
    intros i p Hin. destruct (U i p Hin) as [Ut _]. congruence.
  - destruct (GuestDetail.removeFirst GuestDetail.isUpdate (GuestDetail.pending v))
      as [rest|] eqn:R; [|exact (conj G (conj T U))].
    pose proof (removeFirst_incl _ _ _ R) as Inc.
    unfold GuestDetail.handleUpdate_resume.
    destruct resp; cbn; (split; [exact G|]);
      (split; [apply Forall_forall; intros c Hc;
               rewrite Forall_forall in T; now apply T, Inc|]);
      intros i p Hin; exact (U i p (Inc _ Hin)).
  - destruct (GuestDetail.removeFirst GuestDetail.isDelete (GuestDetail.pending v))
      as [rest|] eqn:R; [|exact (conj G (conj T U))].
    pose proof (removeFirst_incl _ _ _ R) as Inc.
    destruct resp; cbn; (split; [exact G|]);
      (split; [apply Forall_forall; intros c Hc;
               rewrite Forall_forall in T; now apply T, Inc|]);
      intros i p Hin; exact (U i p (Inc _ Hin)).
  - destruct (GuestDetail.removeFirst (GuestDetail.isAction a) (GuestDetail.timers v))
      as [rest|] eqn:R; [|exact (conj G (conj T U))].
    destruct a; cbn.
    + split; [exact G|]. split; [exact T|exact U].
    + split; [exact G|]. split; [exact T|].
      intros i p Hin. exfalso.
      pose proof (removeFirst_count _ _ _ R) as C.
      unfold updatesInFlight in S2.
      assert (Hf : In (Update i p)
                     (filter GuestDetail.isUpdate (GuestDetail.pending v)))
        by (apply filter_In; split; [exact Hin|reflexivity]).
      destruct (filter GuestDetail.isUpdate (GuestDetail.pending v));
        [destruct Hf|]. simpl in S2. lia.
Qed.

(** Whatever is done to the detail view opened on a held record: the view
    keeps holding a record with that id, however it is edited; every call
    in flight updates or deletes that id and no other; at most one update
    is in flight; and an update in flight carries the record exactly as it
    is held, with the updating text covering the form. *)
Theorem detail_calls_are_for_the_held_record
    (g : Guest) (evs : list GuestDetail.Event) :
  let v := GuestDetail.run (GuestDetail.showing g) evs in
  (exists g', GuestDetail.guest (GuestDetail.st v) = Some g' /\ id g' = id g)
  /\ Forall (Targets (id g)) (GuestDetail.pending v)
  /\ (forall i p,
        In (Update i p) (GuestDetail.pending v) ->
        GuestDetail.updating (GuestDetail.st v) = true
        /\ exists g', GuestDetail.guest (GuestDetail.st v) = Some g'
                      /\ p = GuestDetail.payload g')
  /\ (List.length (filter GuestDetail.isUpdate (GuestDetail.pending v)) <= 1)%nat.
Proof.
  cbv zeta.
  assert (I : UpdateSerialised (GuestDetail.showing g)
              /\ HeldRecordCalls g (GuestDetail.showing g)).
  { split; [split; [reflexivity|cbn; lia]|].
    split; [now exists g|]. split; [constructor|]. intros i p []. }
  assert (J : UpdateSerialised (GuestDetail.run (GuestDetail.showing g) evs)
              /\ HeldRecordCalls g (GuestDetail.run (GuestDetail.showing g) evs)).
  { unfold GuestDetail.run. revert I. generalize (GuestDetail.showing g).
    induction evs as [|ev evs IH]; intros v I; [exact I|].
    simpl. apply IH. destruct I as [I1 I2]. split.
    - now apply update_step_serialised.
    - now apply held_step. }
  destruct J as [[_ J1] (G & T & U)].
  split; [exact G|]. split; [exact T|]. split; [exact U|].
  unfold updatesInFlight in J1. lia.
Qed.

Lemma detail_calls_are_for_the_held_record_witness :
  In (Update (lit "g1")
        (GuestDetail.payload (GuestDetail.setField F_phone (lit "555") jane)))
     (GuestDetail.pending
        (GuestDetail.run (GuestDetail.showing jane)
           [GuestDetail.Change F_phone (lit "555"); GuestDetail.ClickUpdate]))
  /\ GuestDetail.updating
       (GuestDetail.st
          (GuestDetail.run (GuestDetail.showing jane)
             [GuestDetail.Change F_phone (lit "555"); GuestDetail.ClickUpdate]))
     = true.
Proof.
  assert (H : In (Update (lit "g1")
                    (GuestDetail.payload
                       (GuestDetail.setField F_phone (lit "555") jane)))
                (GuestDetail.pending
                   (GuestDetail.run (GuestDetail.showing jane)
                      [GuestDetail.Change F_phone (lit "555");
                       GuestDetail.ClickUpdate])))
    by (left; reflexivity).
  exact (conj H
           (proj1 (proj1 (proj2 (proj2
              (detail_calls_are_for_the_held_record jane
                 [GuestDetail.Change F_phone (lit "555");
                  GuestDetail.ClickUpdate]))) _ _ H))).
Defined.

(** ** Which failures and which inputs are singled out *)

Lemma lookupField_found (k : string) (d : ErrorData) :
  isSome (lookupField k d) = true <-> exists fe, In (k, fe) d.
Proof.
  induction d as [|[k' v] d IH]; simpl.
  - split; [discriminate|]. intros [fe []].
  - destruct (String.eqb k k') eqn:E.
    + apply String.eqb_eq in E. subst k'. split; [|reflexivity].
      intros _. exists v. now left.
    + apply String.eqb_neq in E. rewrite IH. split.
      * intros [fe H]. exists fe. now right.
      * intros [fe [H|H]]; [injection H as -> _; now elim E|now exists fe].
Qed.

(** Create and update single out the same failures: each shows its email
    message exactly when the error carries response data with an entry
    named email, whatever that entry says and whatever else is rejected
    with it. *)
Theorem email_message_iff_email_entry (err : ClientError) :
  let named :=
    exists d fe, responseData err = Some d /\ In ("email", fe) d in
  (AddGuest.createError err = AddGuest.msgEmail <-> named)
  /\ (GuestDetail.updateError err = GuestDetail.msgEmail <-> named).
Proof.
  cbv zeta. unfold AddGuest.createError, GuestDetail.updateError, hasEmailError.
  destruct (responseData err) as [d|].
  - pose proof (lookupField_found "email" d) as L.
    destruct (isSome (lookupField "email" d)).
    + destruct (proj1 L eq_refl) as [fe Hfe].
      split; (split; [intros _; now exists d, fe|reflexivity]).
    + split; (split; [discriminate|]);
        intros (d' & fe & E & Hin); injection E as <-;
        assert (X : false = true) by (apply L; now exists fe); discriminate X.
  - split; (split; [discriminate|]); intros (d' & fe & E & _); discriminate E.
Qed.

Lemma email_message_iff_email_entry_witness :
  (exists d fe, responseData rejectedEmail = Some d /\ In ("email", fe) d)
  /\ GuestDetail.updateError rejectedEmail = GuestDetail.msgEmail.
Proof.
  assert (N : exists d fe,
             responseData rejectedEmail = Some d /\ In ("email", fe) d)
    by (eexists _, _; split; [reflexivity|left; reflexivity]).
  exact (conj N (proj2 (proj2 (email_message_iff_email_entry rejectedEmail)) N)).
Defined.

(** A required field counts as missing exactly when it holds nothing but
    white space (spaces, tabs, line breaks, no-break spaces and the like),
    the empty field included; create and update refuse the same inputs. *)
Theorem required_field_missing_iff_blank :
  (forall d,
      AddGuest.requiredMissing d = true
      <-> allWhiteSpace (AddGuest.first_name d) = true
          \/ allWhiteSpace (AddGuest.last_name d) = true
          \/ allWhiteSpace (AddGuest.email d) = true)
  /\ (forall g,
        GuestDetail.requiredMissing g = true
        <-> allWhiteSpace (first_name g) = true
            \/ allWhiteSpace (last_name g) = true
            \/ allWhiteSpace (email g) = true).
Proof.
  split.
  - intros d. rewrite create_requiredMissing_iff, !trim_nil_iff. reflexivity.
  - intros g. rewrite update_requiredMissing_iff, !trim_nil_iff. reflexivity.
Qed.

Example no_break_space_is_blank :
  AddGuest.requiredMissing
    (AddGuest.setField F_first_name [160%N; 9%N; 8232%N] janeDraft) = true.
Proof. reflexivity. Qed.
